(** * teacher-helper: the Zoom attendance report (helper/zoom_attendance_report.py)

    A shallow embedding of [Meeting], [MeetingSet] and [ExcelWriter] and the
    properties of the group-inference algorithm.

    Conventions of the model.
    - Python exceptions are the constructors of [exn]; a call that can raise
      returns a [result].
    - Python list objects that are shared (the groupings in [self.groups],
      the values of [self.group_dict]) live in an explicit store [heap];
      a reference is an index into the store, and [is] is equality of
      references.
    - [TOTAL_TO_UNION_RATIO_ADJUSTMENT] is the float 0.75, which is the
      rational 3/4 exactly; [total * 0.75] is computed without rounding for
      every [total] below 2^51, so the comparison is modelled over [Q].
    - Strings are byte strings (ASCII).
    - Paths are POSIX paths: the file name of a path is the text after its
      last slash. *)

From Stdlib Require Import ZArith QArith Ascii String List Lia.
From stdpp Require Import base option list gmap strings fin_maps fin_sets.

Set Default Proof Using "Type".
Local Open Scope Z_scope.

(** ** Exceptions and results *)

Inductive exn : Type :=
  | ValueError
  | IndexError
  | TypeError
  | AttributeError
  | AssertionError
  | NotImplementedError
  | Exception_
  | DanglingReference. (* model-internal: a reference outside the store *)

Inductive result (A : Type) : Type :=
  | Ok (a : A)
  | Err (e : exn).
Arguments Ok {A} a.
Arguments Err {A} e.

#[global] Instance result_ret : MRet result := fun A a => Ok a.
#[global] Instance result_bind : MBind result := fun A B f r =>
  match r with
  | Ok a => f a
  | Err e => Err e
  end.

#[global] Instance result_fmap : FMap result := fun A B f r =>
  match r with
  | Ok a => Ok (f a)
  | Err e => Err e
  end.

Definition is_Ok {A} (r : result A) : Prop := ∃ a, r = Ok a.
Definition raises {A} (r : result A) : Prop := ∃ e, r = Err e.

(** ** Meeting *)

(** [datetime(year, month, day, hour, minute)] *)
Record datetime : Type := {
  dt_year : Z; dt_month : Z; dt_day : Z; dt_hour : Z; dt_minute : Z }.

(** The attributes of a [Meeting] after [__init__]. A student object is
    represented by its [name], the only attribute the grouping reads. *)
Record Meeting : Type := {
  path_name : string;         (* self.path.name *)
  grade_level : Z;
  duration : Z;
  topic : string;
  meeting_datetime : datetime;
  attendees : list string;    (* [s.name for s in self.attendees] *)
}.

(** [Meeting.__gt__]: [len(self.attendees) > len(other.attendees)] *)
Definition Meeting_gt (self other : Meeting) : bool :=
  bool_decide (length (attendees other) < length (attendees self))%nat.

(** The builtin [max] over a list, as CPython evaluates it: the running
    maximum is replaced only when [item > maxitem], that is when
    [item.__gt__(maxitem)] is true. *)
Fixpoint max_loop (maxitem : Meeting) (rest : list Meeting) : Meeting :=
  match rest with
  | [] => maxitem
  | item :: rest' =>
      if Meeting_gt item maxitem then max_loop item rest'
      else max_loop maxitem rest'
  end.

Definition py_max (group : list Meeting) : result Meeting :=
  match group with
  | [] => Err ValueError      (* max() arg is an empty sequence *)
  | first :: rest => Ok (max_loop first rest)
  end.

(** ** MeetingSet

    [dir_path] is represented by the listing given to [iter_csvs];
    [trust_topics] is stored and never read by the methods below. *)

Abbreviation loc := nat (only parsing).

Record MeetingSet : Type := {
  heap : list (list Meeting);               (* store of list objects *)
  group_map : option (gmap string string);  (* None is Python's None *)
  group_dict : option (gmap string loc);    (* None: attribute not set *)
  groups : list loc;
  TOTAL_TO_UNION_RATIO_ADJUSTMENT : Q;
}.

(** Truth value of [self.group_map]: [None] and [{}] are false. *)
Definition group_map_truthy (gm : option (gmap string string)) : bool :=
  match gm with
  | None => false
  | Some m => negb (bool_decide (m = ∅))
  end.

(** [MeetingSet.__init__] *)
Definition MeetingSet_init (gm : option (gmap string string)) : MeetingSet :=
  {| heap := [];
     group_map := gm;
     group_dict := if group_map_truthy gm then Some ∅ else None;
     groups := [];
     TOTAL_TO_UNION_RATIO_ADJUSTMENT := (3 # 4)%Q |}.

(** [{s.name for s in m.attendees}] *)
Definition name_set (m : Meeting) : gset string := list_to_set (attendees m).

Definition union_size (past_meeting meeting : Meeting) : nat :=
  size (name_set past_meeting ∪ name_set meeting).
Definition total_size (past_meeting meeting : Meeting) : nat :=
  (size (name_set past_meeting) + size (name_set meeting))%nat.

(** [x > y] on rationals, as a boolean *)
Definition Qgtb (x y : Q) : bool := negb (Qle_bool x y).

(** The test of line 400: [total * ratio > union]. *)
Definition union_test (ratio : Q) (past_meeting meeting : Meeting) : bool :=
  let union := union_size past_meeting meeting in
  let total := total_size past_meeting meeting in
  Qgtb (inject_Z (Z.of_nat total) * ratio)%Q (inject_Z (Z.of_nat union)).

(** The loop of [match_meeting_with_group_by_union] over [self.groups].
    The result [Some l] is the grouping [l] itself; [None] stands for the
    fresh empty list returned when nothing matches. The [print] of a match
    is left out. *)
Fixpoint match_loop (h : list (list Meeting)) (ratio : Q)
    (gs : list loc) (meeting : Meeting) : result (option loc) :=
  match gs with
  | [] => Ok None
  | group :: gs' =>
      match h !! group with
      | None => Err DanglingReference
      | Some g =>
          past_meeting ← py_max g;
          if union_test ratio past_meeting meeting then Ok (Some group)
          else match_loop h ratio gs' meeting
      end
  end.

Definition match_meeting_with_group_by_union (self : MeetingSet)
    (meeting : Meeting) : result (option loc) :=
  match_loop (heap self) (TOTAL_TO_UNION_RATIO_ADJUSTMENT self)
    (groups self) meeting.

(** Truth value of the list returned by the matcher ([if match:]). *)
Definition match_truthy (h : list (list Meeting)) (m : option loc) : bool :=
  match m with
  | None => false
  | Some l => match h !! l with Some (_ :: _) => true | _ => false end
  end.

(** [self.group_dict[label] = [meeting]]: a new list object is created and
    stored under [label]. *)
Definition tag_meeting (self : MeetingSet) (label : string)
    (meeting : Meeting) : result MeetingSet :=
  match group_dict self with
  | None => Err AttributeError
  | Some gd =>
      Ok {| heap := heap self ++ [[meeting]];
            group_map := group_map self;
            group_dict := Some (<[label := length (heap self)]> gd);
            groups := groups self;
            TOTAL_TO_UNION_RATIO_ADJUSTMENT :=
              TOTAL_TO_UNION_RATIO_ADJUSTMENT self |}
  end.

(** [match.append(meeting)] on the list object at [l] *)
Definition append_to_group (self : MeetingSet) (l : loc)
    (meeting : Meeting) : result MeetingSet :=
  match heap self !! l with
  | None => Err DanglingReference
  | Some g =>
      Ok {| heap := <[l := g ++ [meeting]]> (heap self);
            group_map := group_map self;
            group_dict := group_dict self;
            groups := groups self;
            TOTAL_TO_UNION_RATIO_ADJUSTMENT :=
              TOTAL_TO_UNION_RATIO_ADJUSTMENT self |}
  end.

(** [self.groups.append([meeting])] *)
Definition new_group (self : MeetingSet) (meeting : Meeting) : MeetingSet :=
  {| heap := heap self ++ [[meeting]];
     group_map := group_map self;
     group_dict := group_dict self;
     groups := groups self ++ [length (heap self)];
     TOTAL_TO_UNION_RATIO_ADJUSTMENT := TOTAL_TO_UNION_RATIO_ADJUSTMENT self |}.

(** The body of the [for] loop of [MeetingSet.process] (lines 305-318). *)
Definition process_meeting (self : MeetingSet) (meeting : Meeting)
    : result MeetingSet :=
  match_ ← match_meeting_with_group_by_union self meeting;
  if match_truthy (heap self) match_ then
    match match_ with
    | Some l =>
        self1 ←
          (if group_map_truthy (group_map self) then
             match group_map self with
             | Some gm =>
                 match gm !! path_name meeting with
                 | Some label => tag_meeting self label meeting
                 | None => Ok self
                 end
             | None => Ok self
             end
           else Ok self);
        append_to_group self1 l meeting
    | None => Ok self
    end
  else Ok (new_group self meeting).

(** [MeetingSet.process]: the loop over the generator [self.iter_csvs()].
    An item of the generator is the outcome of [Meeting(i)], which either
    yields a meeting or raises; nothing catches the exception. *)
Fixpoint process (self : MeetingSet) (gen : list (result Meeting))
    : result MeetingSet :=
  match gen with
  | [] => Ok self
  | Err e :: _ => Err e
  | Ok meeting :: gen' =>
      self' ← process_meeting self meeting;
      process self' gen'
  end.

(** A run over meetings that all parsed. *)
Definition run (self : MeetingSet) (ms : list Meeting) : result MeetingSet :=
  process self (Ok <$> ms).

(** [fill_group_dict] (lines 363-375). [first_label] is the inner loop:
    the first meeting of the grouping whose [group_map.get(name)] is a
    true value, i.e. present and not the empty string. *)
Fixpoint first_label (gm : gmap string string) (grouping : list Meeting)
    : option string :=
  match grouping with
  | [] => None
  | meeting :: rest =>
      match gm !! path_name meeting with
      | Some label =>
          if bool_decide (label = EmptyString) then first_label gm rest
          else Some label
      | None => first_label gm rest
      end
  end.

(** The outer loop of [fill_group_dict]. When a grouping is empty the inner
    loop does not run, so [self.group_map] is not touched. *)
Fixpoint fill_loop (h : list (list Meeting))
    (gm : option (gmap string string)) (gs : list loc)
    (gd : option (gmap string loc)) : result (option (gmap string loc)) :=
  match gs with
  | [] => Ok gd
  | grouping :: gs' =>
      match h !! grouping with
      | None => Err DanglingReference
      | Some [] => fill_loop h gm gs' gd
      | Some (m :: g) =>
          match gm with
          | None => Err AttributeError   (* None.get *)
          | Some gmap_ =>
              match first_label gmap_ (m :: g) with
              | None => fill_loop h gm gs' gd
              | Some label =>
                  match gd with
                  | None => Err AttributeError
                  | Some d => fill_loop h gm gs' (Some (<[label := grouping]> d))
                  end
              end
          end
      end
  end.

Definition fill_group_dict (self : MeetingSet) : result MeetingSet :=
  gd ← fill_loop (heap self) (group_map self) (groups self) (group_dict self);
  Ok {| heap := heap self;
        group_map := group_map self;
        group_dict := gd;
        groups := groups self;
        TOTAL_TO_UNION_RATIO_ADJUSTMENT := TOTAL_TO_UNION_RATIO_ADJUSTMENT self |}.

(** The groupings as values, in the order of [self.groups]. *)
Definition clusters (self : MeetingSet) : list (list Meeting) :=
  (λ l, default [] (heap self !! l)) <$> groups self.

(** ** Reading a report: [Meeting.open_report] *)

Definition is_digit (c : ascii) : bool :=
  let n := nat_of_ascii c in ((48 <=? n) && (n <=? 57))%nat.

Definition digit_value (c : ascii) : Z := Z.of_nat (nat_of_ascii c) - 48.

(** Whitespace as [int] strips it: tab to carriage return, and the
    space. *)
Definition is_space (c : ascii) : bool :=
  let n := nat_of_ascii c in
  (((9 <=? n) && (n <=? 13)) || (n =? 32))%nat.

Definition lower_ascii (c : ascii) : ascii :=
  let n := nat_of_ascii c in
  if ((65 <=? n) && (n <=? 90))%nat then ascii_of_nat (n + 32) else c.

Fixpoint lower (s : string) : string :=
  match s with
  | EmptyString => EmptyString
  | String c s' => String (lower_ascii c) (lower s')
  end.

(** [needle in hay] for strings *)
Fixpoint str_contains (needle hay : string) : bool :=
  String.prefix needle hay ||
  match hay with
  | EmptyString => false
  | String _ hay' => str_contains needle hay'
  end.

(** [s.isdigit()] *)
Fixpoint all_digits (s : string) : bool :=
  match s with
  | EmptyString => true
  | String c s' => is_digit c && all_digits s'
  end.

Definition isdigit (s : string) : bool :=
  match s with
  | EmptyString => false
  | _ => all_digits s
  end.

Fixpoint lstrip (s : string) : string :=
  match s with
  | EmptyString => EmptyString
  | String c s' => if is_space c then lstrip s' else s
  end.

Fixpoint string_rev_onto (acc s : string) : string :=
  match s with
  | EmptyString => acc
  | String c s' => string_rev_onto (String c acc) s'
  end.

Definition strip (s : string) : string :=
  string_rev_onto EmptyString
    (lstrip (string_rev_onto EmptyString (lstrip s))).

(** Decimal digits with single underscores between them. *)
Fixpoint digits_loop (acc : Z) (after_underscore : bool) (s : string)
    : option Z :=
  match s with
  | EmptyString => if after_underscore then None else Some acc
  | String c s' =>
      if is_digit c then digits_loop (10 * acc + digit_value c) false s'
      else if Ascii.eqb c "_" then
        if after_underscore then None else digits_loop acc true s'
      else None
  end.

Definition parse_digits (s : string) : option Z :=
  match s with
  | String c s' =>
      if is_digit c then digits_loop (digit_value c) false s' else None
  | EmptyString => None
  end.

(** The builtin [int] on a string, base 10. *)
Definition py_int (s : string) : result Z :=
  let body := strip s in
  let signed :=
    match body with
    | String "-" rest => (-1, rest)
    | String "+" rest => (1, rest)
    | _ => (1, body)
    end in
  match parse_digits signed.2 with
  | Some n => Ok (signed.1 * n)
  | None => Err ValueError
  end.

(** [re.split(r'/| |:', s)] *)
Definition is_separator (c : ascii) : bool :=
  Ascii.eqb c "/" || Ascii.eqb c " " || Ascii.eqb c ":".

Fixpoint re_split (s : string) : list string :=
  match s with
  | EmptyString => [EmptyString]
  | String c s' =>
      if is_separator c then EmptyString :: re_split s'
      else match re_split s' with
           | [] => [String c EmptyString]
           | w :: ws => String c w :: ws
           end
  end.

(** [[int(i) for i in re.split(...) if i.isdigit()]]; [int] cannot fail on
    a string of digits. *)
Definition time_fields (time_str : string) : list Z :=
  omap (λ i, if isdigit i then parse_digits i else None) (re_split time_str).

Definition is_leap (year : Z) : bool :=
  (year mod 4 =? 0) && (negb (year mod 100 =? 0) || (year mod 400 =? 0)).

Definition days_in_month (year month : Z) : Z :=
  if month =? 2 then (if is_leap year then 29 else 28)
  else if (month =? 4) || (month =? 6) || (month =? 9) || (month =? 11)
       then 30 else 31.

(** The constructor [datetime(year, month, day, hour, minute)]. *)
Definition make_datetime (year month day hour minute : Z) : result datetime :=
  if (1 <=? year) && (year <=? 9999) && (1 <=? month) && (month <=? 12)
     && (1 <=? day) && (day <=? days_in_month year month)
     && (0 <=? hour) && (hour <=? 23) && (0 <=? minute) && (minute <=? 59)
  then Ok {| dt_year := year; dt_month := month; dt_day := day;
             dt_hour := hour; dt_minute := minute |}
  else Err ValueError.

(** [l[i]] *)
Definition py_index {A} (l : list A) (i : nat) : result A :=
  match l !! i with
  | Some x => Ok x
  | None => Err IndexError
  end.

Definition first_char (s : string) : result ascii :=
  match s with
  | String c _ => Ok c
  | EmptyString => Err IndexError
  end.

Section Report.

(** [Meeting.match_student] goes through the roster of [helper.Helper]
    and the fuzzy matcher, which are not part of this development: it is
    a parameter, from the grade level and the raw name to the name of the
    matched student, to [None], or to an exception. *)
Variable match_student : Z → string → result (option string).

(** The loop over [rows[4:]]. *)
Fixpoint read_attendees (grade : Z) (rows : list (list string))
    : result (list string) :=
  match rows with
  | [] => Ok []
  | row :: rows' =>
      _ ← py_index row 2;
      name ← py_index row 0;
      st ← match_student grade name;
      rest ← read_attendees grade rows';
      Ok (match st with Some s => s :: rest | None => rest end)
  end.

(** [Meeting(path)]: [__init__] followed by [open_report], on the name of
    the file and the rows [csv.reader] gives for it. The attendance records
    kept on the student objects of the roster are not represented. *)
Definition open_report (name : string) (rows : list (list string))
    : result Meeting :=
  c ← first_char name;
  grade ← match py_int (String c EmptyString) with
          | Ok g => Ok g
          | Err _ => Err NotImplementedError
          end;
  row2 ← py_index rows 2;
  match row2 with
  | _ :: _ => Err Exception_
  | [] =>
      row1 ← py_index rows 1;
      d ← py_index row1 5;
      duration_ ← py_int d;
      topic_ ← py_index row1 1;
      time_str ← py_index row1 2;
      match time_fields time_str with
      | month :: day :: year :: hour :: minute :: _ =>
          let hour' :=
            if str_contains "pm" (lower time_str) then hour + 12 else hour in
          dt ← make_datetime year month day hour' minute;
          atts ← read_attendees grade (drop 4 rows);
          Ok {| path_name := name; grade_level := grade;
                duration := duration_; topic := topic_;
                meeting_datetime := dt; attendees := atts |}
      | _ => Err ValueError    (* not enough values to unpack *)
      end
  end.

(** [i.name[-4:]] *)
Definition last4 (s : string) : string :=
  let n := String.length s in String.substring (n - 4) 4 s.

(** The two filters of [iter_csvs]. *)
Definition is_report_name (name : string) : bool :=
  String.eqb (last4 name) ".csv" &&
  match name with
  | String c _ => negb (Ascii.eqb c "~" || Ascii.eqb c ".")
  | EmptyString => false
  end.

(** [iter_csvs] over the listing of [dir_path]: one generator item per
    file that passes the filters. *)
Definition iter_csvs (dir : list (string * list (list string)))
    : list (result Meeting) :=
  omap (λ f, if is_report_name f.1 then Some (open_report f.1 f.2)
             else None) dir.

(** [process()] on a directory. *)
Definition process_dir (self : MeetingSet)
    (dir : list (string * list (list string))) : result MeetingSet :=
  process self (iter_csvs dir).

End Report.

(** ** ExcelWriter: the attendance thresholds *)

(** The values a thresholds dict can hold. *)
Inductive pyval : Type :=
  | PyNone
  | PyBool (b : bool)
  | PyInt (z : Z)
  | PyStr (s : string).

(** [isinstance(v, int)]; [bool] is a subclass of [int]. *)
Definition as_int (v : pyval) : option Z :=
  match v with
  | PyInt z => Some z
  | PyBool b => Some (if b then 1 else 0)
  | _ => None
  end.

Definition isinstance_int (v : pyval) : bool :=
  match as_int v with Some _ => true | None => false end.

(** [a < b]: numbers with numbers, strings with strings, anything else is a
    [TypeError]. *)
Definition py_lt (a b : pyval) : result bool :=
  match as_int a, as_int b with
  | Some x, Some y => Ok (x <? y)
  | _, _ =>
      match a, b with
      | PyStr s, PyStr t =>
          Ok (match String.compare s t with Lt => true | _ => false end)
      | _, _ => Err TypeError
      end
  end.

(** The chained comparison [a < b < c]: [b < c] is evaluated only when
    [a < b] is true. *)
Definition chained_lt (a b c : pyval) : result bool :=
  match py_lt a b with
  | Ok true => py_lt b c
  | Ok false => Ok false
  | Err e => Err e
  end.

(** [assert b] *)
Definition py_assert (b : bool) : result unit :=
  if b then Ok () else Err AssertionError.

Definition default_thresholds : gmap string pyval :=
  <["green" := PyInt 30]> (<["yellow" := PyInt 15]> (<["red" := PyInt 0]> ∅)).

(** [validate_or_generate_thresholds], from [self.thresholds] to the value
    of [self.thresholds] when it returns. *)
Definition validate_or_generate_thresholds
    (thresholds : option (gmap string pyval)) : result (gmap string pyval) :=
  match thresholds with
  | Some t =>
      if bool_decide (t = ∅) then Ok default_thresholds
      else
        _ ← py_assert (bool_decide (is_Some (t !! "red")));
        _ ← py_assert (bool_decide (is_Some (t !! "yellow")));
        _ ← py_assert (bool_decide (is_Some (t !! "green")));
        match t !! "red", t !! "yellow", t !! "green" with
        | Some r, Some y, Some g =>
            lt ← chained_lt r y g;
            _ ← py_assert lt;
            _ ← py_assert (forallb isinstance_int (map_to_list t).*2);
            Ok t
        | _, _, _ => Err AssertionError
        end
  | None => Ok default_thresholds
  end.

(** The part of an [ExcelWriter] the thresholds concern; the workbook and
    its styles are presentation. *)
Record ExcelWriter : Type := {
  meetings : MeetingSet;
  thresholds : gmap string pyval;
}.

(** [object.__init__] with the positional arguments [a] and the keyword
    arguments [kw], reached through [super().__init__]: the class has no
    other base, and [object.__init__] raises [TypeError] when it is given
    any argument. *)
Definition object_init {A B} (a : list A) (kw : gmap string B) : result unit :=
  match a with
  | [] => if bool_decide (kw = ∅) then Ok () else Err TypeError
  | _ :: _ => Err TypeError
  end.

Definition thresholds_kw : string := "attendance_duration_thresholds".

(** [ExcelWriter.__init__] on [meetings], [a] and [kw], up to the call of
    [validate_or_generate_thresholds]. A keyword value is a dict or
    [None]. *)
Definition ExcelWriter_init (ms : MeetingSet) (a : list pyval)
    (kw : gmap string (option (gmap string pyval))) : result ExcelWriter :=
  _ ← object_init a kw;
  t ← validate_or_generate_thresholds
        (mjoin (kw !! thresholds_kw));
  Ok {| meetings := ms; thresholds := t |}.

(** ** Specification vocabulary *)

(** [p] is the first record of [g] with the largest number of attendee
    entries, the length of its list of attendees: nothing in [g] has more,
    and everything before it has fewer. *)
Definition first_largest (g : list Meeting) (p : Meeting) : Prop :=
  ∃ i, g !! i = Some p
    ∧ (∀ j m, g !! j = Some m →
         (length (attendees m) ≤ length (attendees p))%nat)
    ∧ (∀ j m, (j < i)%nat → g !! j = Some m →
         (length (attendees m) < length (attendees p))%nat).

(** The threshold test as a proposition over the rationals. *)
Definition accepts (ratio : Q) (P R : Meeting) : Prop :=
  (inject_Z (Z.of_nat (union_size P R))
   < inject_Z (Z.of_nat (total_size P R)) * ratio)%Q.

(** The representative of the grouping at [l] accepts [R]. *)
Definition rep_accepts (h : list (list Meeting)) (ratio : Q) (l : loc)
    (R : Meeting) : Prop :=
  ∃ g P, h !! l = Some g ∧ py_max g = Ok P ∧ accepts ratio P R.

Definition cluster_accepts (self : MeetingSet) (l : loc) (R : Meeting) : Prop :=
  rep_accepts (heap self) (TOTAL_TO_UNION_RATIO_ADJUSTMENT self) l R.


(** The two outcomes of one iteration of [process] on [R]. *)
Definition joins_first_accepting (self self' : MeetingSet) (R : Meeting)
    : Prop :=
  ∃ i l g, groups self !! i = Some l
    ∧ heap self !! l = Some g
    ∧ cluster_accepts self l R
    ∧ (∀ j l', (j < i)%nat → groups self !! j = Some l' →
         ¬ cluster_accepts self l' R)
    ∧ groups self' = groups self
    ∧ clusters self' = <[i := g ++ [R]]> (clusters self).


(** The label [group_map] gives the file of [R], if any. *)
Definition tag_of (gm : option (gmap string string)) (R : Meeting)
    : option string :=
  gm ≫= λ labels, labels !! path_name R.

(** The label of the first record of a grouping whose file name is a key
    of the label map. *)
Fixpoint first_tagged (labels : gmap string string) (grouping : list Meeting)
    : option string :=
  match grouping with
  | [] => None
  | meeting :: rest =>
      match labels !! path_name meeting with
      | Some label => Some label
      | None => first_tagged labels rest
      end
  end.


(** The cluster at place [i] of [self.groups] is the list object [l], and
    the first tagged record of it carries [label]. *)
Definition resolves_to (labels : gmap string string) (self : MeetingSet)
    (i l : nat) (label : string) : Prop :=
  ∃ g, groups self !! i = Some l ∧ heap self !! l = Some g
    ∧ first_tagged labels g = Some label.

(** [gd] is a resolved label dict for [self]: a label is mapped to the very
    cluster that resolves to it (the last created one, when several do),
    and a cluster appears as a value only under the label it resolves
    to. *)
Definition label_dict_resolved (labels : gmap string string)
    (self : MeetingSet) (gd : gmap string nat) : Prop :=
  (∀ i l label, resolves_to labels self i l label →
     (∀ j l', (i < j)%nat → ¬ resolves_to labels self j l' label) →
     gd !! label = Some l)
  ∧ (∀ label l, gd !! label = Some l → l ∈ groups self →
       ∃ i, resolves_to labels self i l label).

Definition threshold_int (t : gmap string pyval) (color : string) : option Z :=
  t !! color ≫= as_int.

(** [red], [yellow] and [green] are present, are ints, and increase
    strictly. *)
Definition increasing_ints (t : gmap string pyval) : Prop :=
  ∃ r y g, threshold_int t "red" = Some r
    ∧ threshold_int t "yellow" = Some y
    ∧ threshold_int t "green" = Some g
    ∧ r < y < g.

(** Every value of the dict is an int. *)
Definition all_ints (t : gmap string pyval) : Prop :=
  ∀ k v, t !! k = Some v → isinstance_int v = true.

(** ** Auxiliary definitions of the proofs *)

(** The state after [R] has joined the grouping at [l], whose records were
    [g]: a tagged record also puts a new one-element list in the store and
    in [group_dict]. *)
Definition after_join (self : MeetingSet) (l : loc) (g : list Meeting)
    (R : Meeting) : MeetingSet :=
  match tag_of (group_map self) R, group_dict self with
  | Some label, Some gd =>
      {| heap := <[l := g ++ [R]]> (heap self ++ [[R]]);
         group_map := group_map self;
         group_dict := Some (<[label := length (heap self)]> gd);
         groups := groups self;
         TOTAL_TO_UNION_RATIO_ADJUSTMENT :=
           TOTAL_TO_UNION_RATIO_ADJUSTMENT self |}
  | _, _ =>
      {| heap := <[l := g ++ [R]]> (heap self);
         group_map := group_map self;
         group_dict := group_dict self;
         groups := groups self;
         TOTAL_TO_UNION_RATIO_ADJUSTMENT :=
           TOTAL_TO_UNION_RATIO_ADJUSTMENT self |}
  end.

(** The states [process] maintains. [gm] is the [group_map] given to
    [__init__]. *)
Record wf (gm : option (gmap string string)) (self : MeetingSet) : Prop := {
  wf_group_map : group_map self = gm;
  wf_ratio : TOTAL_TO_UNION_RATIO_ADJUSTMENT self = (3 # 4)%Q;
  wf_groups : ∀ l, l ∈ groups self →
    ∃ m g, heap self !! l = Some (m :: g);
  wf_nodup : NoDup (groups self);
  wf_dict : is_Some (group_dict self) ↔ group_map_truthy gm = true;
  wf_tags : ∀ gd label l, group_dict self = Some gd → gd !! label = Some l →
    (l ∉ groups self)
    ∧ ∃ m, heap self !! l = Some [m]
        ∧ (∃ labels, gm = Some labels ∧ labels !! path_name m = Some label)
        ∧ ∃ l' g i, l' ∈ groups self ∧ heap self !! l' = Some g
            ∧ g !! S i = Some m;
}.

(** What one turn of the outer loop of [fill_group_dict] does to the
    dict. *)
Definition label_at (h : list (list Meeting)) (labels : gmap string string)
    (l : nat) : option string :=
  h !! l ≫= first_label labels.

Definition resolve_step (h : list (list Meeting)) (labels : gmap string string)
    (d : gmap string nat) (l : nat) : gmap string nat :=
  match label_at h labels l with
  | Some label => <[label := l]> d
  | None => d
  end.

(** ** Sample records *)

Definition sample_datetime : datetime :=
  {| dt_year := 2020; dt_month := 9; dt_day := 24;
     dt_hour := 10; dt_minute := 13 |}.

Definition record (name : string) (names : list string) : Meeting :=
  {| path_name := name; grade_level := 6; duration := 40;
     topic := "Health"; meeting_datetime := sample_datetime;
     attendees := names |}.

Definition state_of (h : list (list Meeting)) (gs : list nat) : MeetingSet :=
  {| heap := h; group_map := None; group_dict := None; groups := gs;
     TOTAL_TO_UNION_RATIO_ADJUSTMENT := (3 # 4)%Q |}.

Definition rec_abc : Meeting := record "6 health mon.csv" ["Ann"; "Bob"; "Cy"].
Definition rec_abcd : Meeting :=
  record "6 health tue.csv" ["Ann"; "Bob"; "Cy"; "Dee"].
Definition rec_empty1 : Meeting := record "6 empty one.csv" [].
Definition rec_empty2 : Meeting := record "6 empty two.csv" [].

Definition rec_xyz : Meeting := record "6 chorus wed.csv" ["Xi"; "Yo"; "Zed"].

(** Three records of three attendees and one of two, for the ties of
    [max]. *)
Definition rec_tie1 : Meeting := record "6 tie one.csv" ["a"; "b"; "c"].
Definition rec_tie2 : Meeting := record "6 tie two.csv" ["d"; "e"; "f"].

(** Four records for the order-dependence of the grouping: [rec_twin1] and
    [rec_twin2] have the same four attendees. *)
Definition rec_pair : Meeting := record "6 band mon.csv" ["s1"; "s2"].
Definition rec_twin1 : Meeting :=
  record "6 art tue.csv" ["s3"; "s4"; "s5"; "s6"].

(** Label maps for the samples. *)
Definition tue_label : gmap string string :=
  {[ "6 health tue.csv" := "Health; Mrs. Smith" ]}.

Definition shared_label : gmap string string :=
  <["6 band mon.csv" := "Homeroom 6A"]>
    {[ "6 art tue.csv" := "Homeroom 6A" ]}.

(** A label map with an empty label for the first file. *)
Definition blank_label : gmap string string :=
  <["6 health mon.csv" := ""]> {[ "6 health tue.csv" := "Health" ]}.

(** The state after [rec_abc] and then the tagged [rec_abcd]. *)
Definition tagged_state : MeetingSet :=
  {| heap := [[rec_abc; rec_abcd]; [rec_abcd]];
     group_map := Some tue_label;
     group_dict := Some {[ "Health; Mrs. Smith" := 1%nat ]};
     groups := [0%nat];
     TOTAL_TO_UNION_RATIO_ADJUSTMENT := (3 # 4)%Q |}.

(** ** Sample reports *)

(** A resolver that knows every name. *)
Definition echo_student (grade : Z) (name : string)
    : result (option string) :=
  Ok (Some name).

Definition report_rows (time_str duration_ : string) : list (list string) :=
  [ ["Meeting ID"; "Topic"; "Start Time"; "End Time"; "User Email";
     "Duration (Minutes)"; "Participants"];
    ["912 345 678"; "Health"; time_str; "09/24/2020 01:10:00 PM";
     "teacher@school.org"; duration_; "3"];
    [];
    ["Name (Original Name)"; "User Email"; "Total Duration (Minutes)"];
    ["Ann"; "ann@school.org"; "40"];
    ["Bob"; "bob@school.org"; "35"] ].

(** A meeting that started at half past noon, and one at 10:13 am. *)
Definition rows_noon : list (list string) :=
  report_rows "09/24/2020 12:30:00 PM" "40".
Definition rows_morning : list (list string) :=
  report_rows "09/24/2020 10:13:00 AM" "40".
(** A report without a usable start time. *)
Definition rows_no_time : list (list string) := report_rows "" "40".

Definition dir_bad_then_good : list (string * list (list string)) :=
  [ ("6 health mon.csv", rows_no_time); ("6 health tue.csv", rows_morning) ].

Definition meeting_morning : Meeting :=
  {| path_name := "6 health tue.csv"; grade_level := 6; duration := 40;
     topic := "Health"; meeting_datetime := sample_datetime;
     attendees := ["Ann"; "Bob"] |}.

(** ** Sample thresholds *)

Definition thresholds_of (r y g : Z) : gmap string pyval :=
  <["green" := PyInt g]> (<["yellow" := PyInt y]> (<["red" := PyInt r]> ∅)).


(** ** Vocabulary for the other properties *)

(** A date and time the [datetime] constructor accepts. *)
Definition valid_datetime (dt : datetime) : Prop :=
  1 <= dt_year dt <= 9999 ∧ 1 <= dt_month dt <= 12
  ∧ 1 <= dt_day dt <= days_in_month (dt_year dt) (dt_month dt)
  ∧ 0 <= dt_hour dt <= 23 ∧ 0 <= dt_minute dt <= 59.

(** The name ends in [.csv]. *)
Definition ends_with_csv (name : string) : Prop :=
  ∃ stem, name = stem +:+ ".csv".



(** ** [Meeting.__eq__] *)

Definition digit_char (d : Z) : ascii := ascii_of_nat (48 + Z.to_nat d).

(** [%02d] and [%04d] *)
Definition pad2 (n : Z) : string :=
  String (digit_char (n / 10 mod 10))
    (String (digit_char (n mod 10)) EmptyString).
Definition pad4 (n : Z) : string :=
  String (digit_char (n / 1000 mod 10))
    (String (digit_char (n / 100 mod 10)) (pad2 n)).

(** [datetime.isoformat()] of a datetime built from year, month, day, hour
    and minute: [YYYY-MM-DDTHH:MM:00]. *)
Definition isoformat (dt : datetime) : string :=
  pad4 (dt_year dt) +:+ "-" +:+ pad2 (dt_month dt) +:+ "-"
  +:+ pad2 (dt_day dt) +:+ "T" +:+ pad2 (dt_hour dt) +:+ ":"
  +:+ pad2 (dt_minute dt) +:+ ":00".

(** [Meeting.__eq__] on two meetings (lines 71-75): the identifiers
    [topic + datetime.isoformat()] are compared. *)
Definition Meeting_eq (self other : Meeting) : bool :=
  String.eqb (topic self +:+ isoformat (meeting_datetime self))
             (topic other +:+ isoformat (meeting_datetime other)).

(** ** [generate_group_map_from_topics] and [rename_csv_files] *)

Section Topics.

Variable match_student : Z → string → result (option string).

(** The loop of [generate_group_map_from_topics] over [dir_path.iterdir()]:
    every path is opened, and [setdefault] keeps the first topic of a
    name. *)
Fixpoint topics_loop (dir : list (string * list (list string)))
    (gm : gmap string string) : result (gmap string string) :=
  match dir with
  | [] => Ok gm
  | (name, rows) :: dir' =>
      meeting ← open_report match_student name rows;
      topics_loop dir'
        (match gm !! name with
         | Some _ => gm
         | None => <[name := topic meeting]> gm
         end)
  end.

(** [generate_group_map_from_topics] (lines 405-426), with the attribute
    [trust_topics], a bool, as an argument. When one of the two assertions
    fails, the message of the exception to raise is built with
    [str + self.trust_topics], which is a [TypeError]. *)
Definition generate_group_map_from_topics (self : MeetingSet)
    (trust_topics : bool) (dir : list (string * list (list string)))
    : result MeetingSet :=
  if negb (group_map_truthy (group_map self)) && trust_topics then
    gm ← topics_loop dir ∅;
    Ok {| heap := heap self;
          group_map := Some gm;
          group_dict := Some ∅;
          groups := groups self;
          TOTAL_TO_UNION_RATIO_ADJUSTMENT :=
            TOTAL_TO_UNION_RATIO_ADJUSTMENT self |}
  else Err TypeError.

End Topics.

(** [s.split(' ')[0]]: the text before the first space. *)
Fixpoint before_space (s : string) : string :=
  match s with
  | EmptyString => EmptyString
  | String c s' =>
      if Ascii.eqb c " " then EmptyString else String c (before_space s')
  end.





Section Rename.

(** [report_path.rename(target)] is the operating system's: whether it
    succeeds depends on the file system, which the renamings made before
    have changed (a directory named in [new_name] may not exist). It is a
    parameter, from the renamings made so far, the name of the file and
    [new_name] to success or failure. *)
Variable os_rename : list (string * string) → string → string → bool.



End Rename.


(** ** [IterCsv] (helper/HelperMixins/oncourse_mixin.py) *)

Module IterCsv.

(** The test of the first branch of [__init__], as Python groups it:
    [(not strict and clean_header in raw_header)
     or raw_header in clean_header]. *)
Definition header_matches (strict : bool) (clean_header raw_header : string)
    : bool :=
  (negb strict && str_contains clean_header raw_header)
  || str_contains raw_header clean_header.

(** [self.context[clean_header] = i], with the lengths of the dict before
    and after; equal lengths raise [Exception]. *)
Definition assign (clean_header : string) (i : nat) (context : gmap string nat)
    : result (gmap string nat) :=
  let before := size context in
  let context' := <[clean_header := i]> context in
  let after := size context' in
  if (before =? after)%nat then Err Exception_ else Ok context'.

(** The loop over [acceptable_headers] for the lowered header [raw_header]
    of column [i]. *)
Fixpoint match_header (strict : bool) (i : nat) (raw_header : string)
    (acceptable_headers : list string) (context : gmap string nat)
    : result (gmap string nat) :=
  match acceptable_headers with
  | [] => Ok context
  | clean_header :: rest =>
      if header_matches strict clean_header raw_header then
        context' ← assign clean_header i context;
        match_header strict i raw_header rest context'
      else if strict && String.eqb clean_header raw_header then
        context' ← assign clean_header i context;
        match_header strict i raw_header rest context'
      else match_header strict i raw_header rest context
  end.

(** The loop over [enumerate(rows[0])], from column [i] on. *)
Fixpoint header_loop (strict : bool) (acceptable_headers : list string)
    (i : nat) (header : list string) (context : gmap string nat)
    : result (gmap string nat) :=
  match header with
  | [] => Ok context
  | raw_header :: header' =>
      context' ← match_header strict i (lower raw_header)
                   acceptable_headers context;
      header_loop strict acceptable_headers (S i) header' context'
  end.

Record t : Type := {
  current_row : nat;
  rows : list (list string);
  context : gmap string nat;
}.

(** [IterCsv.__init__] *)
Definition init (acceptable_headers : list string)
    (rows_ : list (list string)) (strict : bool) : result t :=
  header ← py_index rows_ 0;
  context_ ← header_loop strict acceptable_headers 0 header ∅;
  Ok {| current_row := 0; rows := rows_; context := context_ |}.

(** What [__next__] does besides updating [current_row]. *)
Inductive step : Type :=
  | Yield (context_ : gmap string nat) (row : list string)
  | StopIteration
  | Fail (e : exn).

(** [IterCsv.__next__] *)
Definition next (self : t) : t * step :=
  let self' := {| current_row := S (current_row self);
                  rows := rows self; context := context self |} in
  if Z.of_nat (current_row self') <? Z.of_nat (length (rows self')) - 1 then
    match rows self' !! current_row self' with
    | Some row => (self', Yield (context self') row)
    | None => (self', Fail IndexError)
    end
  else (self', StopIteration).

(** A [for] loop over the iterator that collects the rows it is given;
    [None] when [fuel] calls of [__next__] do not reach the end. *)
Fixpoint collect (fuel : nat) (self : t) : option (result (list (list string))) :=
  match fuel with
  | O => None
  | S fuel' =>
      match next self with
      | (self', Yield _ row) =>
          match collect fuel' self' with
          | Some (Ok rows_) => Some (Ok (row :: rows_))
          | other => other
          end
      | (_, StopIteration) => Some (Ok [])
      | (_, Fail e) => Some (Err e)
      end
  end.

End IterCsv.

(** ** [parse_homeroom] and [parse_group] (helper/csv_parsers.py) *)

Module csv_parsers.

(** What the two parsers raise: exceptions of [exn], and two that are not
    among them. *)
Inductive error : Type :=
  | Builtin (e : exn)
  | UnboundLocalError (name : string)
  | StopIteration.

Inductive outcome (A : Type) : Type :=
  | Return (a : A)
  | Raise (e : error).
Arguments Return {A} a.
Arguments Raise {A} e.

#[global] Instance outcome_ret : MRet outcome := fun A a => Return a.
#[global] Instance outcome_bind : MBind outcome := fun A B f r =>
  match r with
  | Return a => f a
  | Raise e => Raise e
  end.

(** [l[i]] *)
Definition index {A} (l : list A) (i : nat) : outcome A :=
  match l !! i with
  | Some x => Return x
  | None => Raise (Builtin IndexError)
  end.

(** [s[:n]] *)
Fixpoint str_take (n : nat) (s : string) : string :=
  match n, s with
  | S n', String c s' => String c (str_take n' s')
  | _, _ => EmptyString
  end.

(** [s[n:]] *)
Fixpoint str_drop (n : nat) (s : string) : string :=
  match n, s with
  | S n', String _ s' => str_drop n' s'
  | _, _ => s
  end.

(** [s[i]], a string of one character *)
Fixpoint str_index (s : string) (i : nat) : outcome ascii :=
  match s, i with
  | EmptyString, _ => Raise (Builtin IndexError)
  | String c _, O => Return c
  | String _ s', S i' => str_index s' i'
  end.

(** [s.index(c)] *)
Fixpoint str_find (c : ascii) (s : string) : outcome nat :=
  match s with
  | EmptyString => Raise (Builtin ValueError)
  | String c' s' =>
      if Ascii.eqb c' c then Return 0%nat
      else i ← str_find c s'; Return (S i)
  end.

(** [s.split(c)] for a separator of one character *)
Fixpoint str_split (c : ascii) (s : string) : list string :=
  match s with
  | EmptyString => [EmptyString]
  | String c' s' =>
      if Ascii.eqb c' c then EmptyString :: str_split c s'
      else match str_split c s' with
           | [] => [String c' EmptyString]
           | w :: ws => String c' w :: ws
           end
  end.

(** The dict given to [Student]. [None] is Python's [None]; for [groups],
    which only [parse_group] sets, it is the missing key. *)
Record context : Type := {
  first_name : string;
  last_name : string;
  student_id : option string;
  email : option string;
  homeroom : option string;
  groups : option (list string);
  grade_level : ascii;
}.

(** The header scan of [parse_homeroom] (lines 17-22) keeps two locals,
    [id_index] and [name_index]; [None] is a local not yet bound. *)
Definition scan_item (st : option nat * option nat) (index_ : nat)
    (item : string) : option nat * option nat :=
  (if String.eqb (lower item) "id" then Some index_ else st.1,
   if String.eqb (lower item) "name" then Some index_ else st.2).

Fixpoint scan_row (st : option nat * option nat) (index_ : nat)
    (row : list string) : option nat * option nat :=
  match row with
  | [] => st
  | item :: row' => scan_row (scan_item st index_ item) (S index_) row'
  end.

Definition scan_rows (st : option nat * option nat)
    (rows : list (list string)) : option nat * option nat :=
  foldl (λ st row, scan_row st 0 row) st rows.

(** [if not id_index or not name_index: raise Exception(...)] (lines
    23-24): reading an unbound local raises, and the index 0 is falsy. *)
Definition check_indices (st : option nat * option nat) : outcome unit :=
  match st.1 with
  | None => Raise (UnboundLocalError "id_index")
  | Some O => Raise (Builtin Exception_)
  | Some (S _) =>
      match st.2 with
      | None => Raise (UnboundLocalError "name_index")
      | Some O => Raise (Builtin Exception_)
      | Some (S _) => Return tt
      end
  end.

Section Student.

(** The class [Student] that csv_parsers.py imports is the one of its own
    package; the parsers are modelled for any constructor. *)
Context {Student : Type}.
Variable Student_init : context → outcome Student.

(** The loop [for row in reader: ... students.append(...)] *)
Fixpoint students_loop (body : list string → outcome Student)
    (rows : list (list string)) : outcome (list Student) :=
  match rows with
  | [] => Return []
  | row :: rows' =>
      student ← body row;
      students ← students_loop body rows';
      Return (student :: students)
  end.

(** The body of the second loop of [parse_homeroom] (lines 32-47) *)
Definition homeroom_student (teacher : string) (grade_level_ : ascii)
    (row : list string) : outcome Student :=
  inverted_name ← index row 1;
  flip_index ← str_find "," inverted_name;
  let last_name_ := str_take flip_index inverted_name in
  let first_name_ := str_drop (flip_index + 2) inverted_name in
  student_id_ ← index row 0;
  Student_init {| first_name := first_name_;
                  last_name := last_name_;
                  student_id := Some student_id_;
                  email := None;
                  homeroom := Some teacher;
                  groups := None;
                  grade_level := grade_level_ |}.

(** [parse_homeroom(path)], from [path.stem] and the rows [csv.reader]
    gives for the file, which is read twice. *)
Definition parse_homeroom (stem : string) (rows : list (list string))
    : outcome (string * ascii * list Student) :=
  let teacher := str_drop 2 stem in
  grade_level_ ← str_index stem 1;
  _ ← check_indices (scan_rows (None, None) rows);
  match rows with
  | [] => Raise StopIteration
  | _ :: rows' =>
      students ← students_loop (homeroom_student teacher grade_level_) rows';
      Return (teacher, grade_level_, students)
  end.

(** The body of the loop of [parse_group] (lines 62-72) *)
Definition group_student (group_name : string) (grade_level_ : ascii)
    (row : list string) : outcome Student :=
  cell ← index row 0;
  let nm := str_split " " cell in
  first_name_ ← index nm 0;
  last_name_ ← index nm 1;
  Student_init {| first_name := first_name_;
                  last_name := last_name_;
                  student_id := None;
                  email := None;
                  homeroom := None;
                  groups := Some [group_name];
                  grade_level := grade_level_ |}.

(** [parse_group(path)] *)
Definition parse_group (stem : string) (rows : list (list string))
    : outcome (string * ascii * list Student) :=
  let group_name := str_drop 2 stem in
  grade_level_ ← str_index stem 1;
  students ← students_loop (group_student group_name grade_level_) rows;
  Return (group_name, grade_level_, students).

End Student.

End csv_parsers.


(** ** The grouping in the words of the specification

    The definitions below do not use [name_set], [union_size],
    [total_size], [union_test] or [py_max]: they say what the
    specification says, on the list of attendees of a record. *)

(** [|attendees(m)|]: the number of attendees of a record, a student who
    is listed twice counted once. *)
Definition attendee_count (m : Meeting) : nat :=
  length (remove_dups (attendees m)).

(** [union = |attendees(P) ∪ attendees(R)|] *)
Definition spec_union (P R : Meeting) : nat :=
  length (remove_dups (attendees P ++ attendees R)).

(** [total = |attendees(P)| + |attendees(R)|] *)
Definition spec_total (P R : Meeting) : nat :=
  (attendee_count P + attendee_count R)%nat.

(** [total * ratio_threshold > union] *)
Definition spec_test (ratio : Q) (P R : Meeting) : Prop :=
  (inject_Z (Z.of_nat (spec_union P R))
   < inject_Z (Z.of_nat (spec_total P R)) * ratio)%Q.

(** The representative as the specification has it: the record of the
    cluster with the maximum number of attendees, the earliest of them. *)
Definition most_attendees_first (g : list Meeting) (p : Meeting) : Prop :=
  ∃ i, g !! i = Some p
    ∧ (∀ j m, g !! j = Some m → (attendee_count m ≤ attendee_count p)%nat)
    ∧ (∀ j m, (j < i)%nat → g !! j = Some m →
         (attendee_count m < attendee_count p)%nat).

(** A cluster takes [R] when its representative, the first of its records
    with the most attendee entries ([first_largest]), passes the test at
    the ratio 0.75. *)
Definition cluster_takes (g : list Meeting) (R : Meeting) : Prop :=
  ∃ P, first_largest g P ∧ spec_test (3 # 4) P R.

(** [R] is appended to the first cluster of [before] that takes it. *)
Definition assigned_to_first_taking (before after : list (list Meeting))
    (R : Meeting) : Prop :=
  ∃ i g, before !! i = Some g
    ∧ cluster_takes g R
    ∧ (∀ j g', (j < i)%nat → before !! j = Some g' → ¬ cluster_takes g' R)
    ∧ after = <[i := g ++ [R]]> before.

(** No cluster of [before] takes [R], and the cluster [[R]] is appended to
    the list of clusters. *)
Definition starts_singleton (before after : list (list Meeting))
    (R : Meeting) : Prop :=
  (∀ g, g ∈ before → ¬ cluster_takes g R)
  ∧ after = before ++ [[R]].



(** Records in which a student is listed more than once: [rec_dup_y] has
    five attendee entries for two students. *)
Definition rec_dup_x : Meeting := record "6 gym mon.csv" ["a"; "b"; "c"].
Definition rec_dup_y : Meeting :=
  record "6 gym tue.csv" ["a"; "a"; "a"; "a"; "b"].
Definition rec_bc : Meeting := record "6 gym wed.csv" ["b"; "c"].


(** * Properties *)

(** ** The builtin [max] *)

Lemma Meeting_gt_spec (a b : Meeting) :
  Meeting_gt a b = true ↔ (length (attendees b) < length (attendees a))%nat.
Proof. unfold Meeting_gt. apply bool_decide_eq_true. Qed.

Lemma max_loop_first_largest (rest pre : list Meeting) (cur : Meeting) :
  first_largest pre cur →
  first_largest (pre ++ rest) (max_loop cur rest).
Proof.
  revert pre cur. induction rest as [|item rest IH]; intros pre cur Hcur.
  - by rewrite app_nil_r.
  - simpl. replace (pre ++ item :: rest) with ((pre ++ [item]) ++ rest)
      by (by rewrite <- app_assoc).
    destruct Hcur as (i & Hi & Hle & Hlt).
    destruct (Meeting_gt item cur) eqn:Hgt; apply IH.
    + apply Meeting_gt_spec in Hgt.
      exists (length pre). split; [|split].
      * by rewrite lookup_app_r, Nat.sub_diag.
      * intros j m Hj. apply lookup_app_Some in Hj as [Hj|[_ Hj]].
        -- specialize (Hle _ _ Hj). lia.
        -- apply list_lookup_singleton_Some in Hj as [_ <-]. lia.
      * intros j m Hjl Hj. rewrite lookup_app_l in Hj by done.
        specialize (Hle _ _ Hj). lia.
    + assert (¬ (length (attendees cur) < length (attendees item))%nat) as Hn.
      { intros H. apply Meeting_gt_spec in H. congruence. }
      exists i. split; [|split].
      * apply lookup_app_l_Some, Hi.
      * intros j m Hj. apply lookup_app_Some in Hj as [Hj|[_ Hj]].
        -- eauto.
        -- apply list_lookup_singleton_Some in Hj as [_ <-]. lia.
      * intros j m Hjl Hj. apply lookup_lt_Some in Hi.
        rewrite lookup_app_l in Hj by lia. eauto.
Qed.

Lemma py_max_first_largest (m : Meeting) (g : list Meeting) :
  ∃ p, py_max (m :: g) = Ok p ∧ first_largest (m :: g) p.
Proof.
  exists (max_loop m g). split; [done|].
  apply (max_loop_first_largest g [m] m).
  exists 0%nat. split; [done|]. split.
  - intros j x Hj. apply list_lookup_singleton_Some in Hj as [_ <-]. lia.
  - intros j x Hj. lia.
Qed.

Lemma first_largest_elem (g : list Meeting) (p : Meeting) :
  first_largest g p → p ∈ g.
Proof. intros (i & Hi & _). by eapply list_elem_of_lookup_2. Qed.

(** [max] after an [append]: the old representative stays unless the new
    record is strictly larger. *)
Lemma max_loop_snoc (rest : list Meeting) (cur R : Meeting) :
  max_loop cur (rest ++ [R]) =
  if Meeting_gt R (max_loop cur rest) then R else max_loop cur rest.
Proof.
  revert cur. induction rest as [|item rest IH]; intros cur; simpl.
  - done.
  - destruct (Meeting_gt item cur); apply IH.
Qed.

Lemma py_max_snoc (g : list Meeting) (p R : Meeting) :
  py_max g = Ok p →
  py_max (g ++ [R]) = Ok (if Meeting_gt R p then R else p).
Proof.
  destruct g as [|m g]; [done|]. simpl. intros [= <-].
  by rewrite max_loop_snoc.
Qed.

(** ** The threshold test *)

Lemma union_test_accepts (ratio : Q) (P R : Meeting) :
  union_test ratio P R = true ↔ accepts ratio P R.
Proof.
  unfold union_test, accepts, Qgtb. rewrite negb_true_iff.
  split.
  - intros H. apply Qnot_le_lt. intros Hle.
    apply Qle_bool_iff in Hle. congruence.
  - intros H. destruct (Qle_bool _ _) eqn:E; [|done].
    apply Qle_bool_iff in E. by apply Qlt_not_le in H.
Qed.

Lemma union_test_rejects (ratio : Q) (P R : Meeting) :
  union_test ratio P R = false ↔ ¬ accepts ratio P R.
Proof.
  rewrite <- union_test_accepts. destruct (union_test ratio P R); naive_solver.
Qed.

Lemma accepts_Z (ratio : Q) (P R : Meeting) :
  accepts ratio P R ↔
  Z.of_nat (union_size P R) * Z.pos (Qden ratio)
  < Z.of_nat (total_size P R) * Qnum ratio.
Proof.
  unfold accepts, Qlt. simpl. rewrite Z.mul_1_r. reflexivity.
Qed.



(** An empty record is rejected by every representative, as long as the
    ratio does not exceed 1. *)
Lemma empty_record_rejected (ratio : Q) (P R : Meeting) :
  name_set R = ∅ → (name_set P = ∅ ∨ (ratio <= 1)%Q) →
  union_test ratio P R = false.
Proof.
  intros HR Hcase. apply union_test_rejects. rewrite accepts_Z.
  unfold union_size, total_size. rewrite HR, union_empty_r_L.
  rewrite size_empty, Nat.add_0_r.
  destruct Hcase as [->|Hle].
  - rewrite size_empty. simpl. lia.
  - unfold Qle in Hle. simpl in Hle. nia.
Qed.

Lemma name_set_empty (R : Meeting) : attendees R = [] ↔ name_set R = ∅.
Proof.
  unfold name_set. split.
  - by intros ->.
  - destruct (attendees R) as [|a l]; [done|]. simpl. set_solver.
Qed.

(** ** The scan of [match_meeting_with_group_by_union] *)

Lemma match_loop_cases (h : list (list Meeting)) (ratio : Q) (gs : list loc)
    (R : Meeting) :
  (∀ l, l ∈ gs → ∃ m g, h !! l = Some (m :: g)) →
  (match_loop h ratio gs R = Ok None
   ∧ ∀ l, l ∈ gs → ¬ rep_accepts h ratio l R)
  ∨ (∃ i l, gs !! i = Some l
       ∧ match_loop h ratio gs R = Ok (Some l)
       ∧ rep_accepts h ratio l R
       ∧ ∀ j l', (j < i)%nat → gs !! j = Some l' → ¬ rep_accepts h ratio l' R).
Proof.
  induction gs as [|l gs IH]; intros Hne.
  - left. split; [done|]. intros l Hl. by apply elem_of_nil in Hl.
  - destruct (Hne l) as (m & g & Hl); [by left|].
    simpl. rewrite Hl. simpl.
    destruct (union_test ratio (max_loop m g) R) eqn:Ht.
    + right. exists 0%nat, l. split; [done|]. split; [done|]. split.
      * exists (m :: g), (max_loop m g).
        by rewrite <- union_test_accepts.
      * intros j l' Hj. lia.
    + assert (¬ rep_accepts h ratio l R) as Hrej.
      { intros (g' & P & Hg' & HP & Hacc). rewrite Hl in Hg'.
        injection Hg' as <-. injection HP as <-.
        apply union_test_accepts in Hacc. congruence. }
      destruct IH as [[Hnone Hall]|(i & l' & Hi & Hsome & Hacc & Hbefore)].
      * intros l' Hl'. apply Hne. by right.
      * left. split; [done|]. intros l' Hl'.
        apply elem_of_cons in Hl' as [->|Hl']; eauto.
      * right. exists (S i), l'. split; [done|]. split; [done|].
        split; [done|]. intros [|j] l'' Hj Hl''.
        -- simpl in Hl''. by injection Hl'' as <-.
        -- simpl in Hl''. apply (Hbefore j); [lia|done].
Qed.

(** ** One iteration of [process] *)

Lemma tag_of_truthy (gm : option (gmap string string)) (R : Meeting)
    (label : string) :
  tag_of gm R = Some label → group_map_truthy gm = true.
Proof.
  destruct gm as [labels|]; simpl; [|done]. intros H.
  apply negb_true_iff, bool_decide_eq_false. intros ->.
  by rewrite lookup_empty in H.
Qed.

Lemma process_meeting_cases (gm : option (gmap string string))
    (self : MeetingSet) (R : Meeting) :
  wf gm self →
  ((∀ l, l ∈ groups self → ¬ cluster_accepts self l R)
   ∧ process_meeting self R = Ok (new_group self R))
  ∨ (∃ i l g, groups self !! i = Some l
       ∧ heap self !! l = Some g
       ∧ cluster_accepts self l R
       ∧ (∀ j l', (j < i)%nat → groups self !! j = Some l' →
            ¬ cluster_accepts self l' R)
       ∧ process_meeting self R = Ok (after_join self l g R)).
Proof.
  intros Hwf. unfold process_meeting, match_meeting_with_group_by_union.
  destruct (match_loop_cases (heap self)
              (TOTAL_TO_UNION_RATIO_ADJUSTMENT self) (groups self) R)
    as [[Hnone Hall]|(i & l & Hi & Hsome & Hacc & Hbefore)].
  - apply Hwf.
  - left. split; [done|]. by rewrite Hnone.
  - right. destruct (wf_groups _ _ Hwf l) as (m & g & Hl).
    { by eapply list_elem_of_lookup_2. }
    exists i, l, (m :: g). split; [done|]. split; [done|].
    split; [done|]. split; [done|].
    rewrite Hsome. simpl. rewrite Hl.
    pose proof (wf_dict _ _ Hwf) as Hdict.
    pose proof (wf_group_map _ _ Hwf) as Hgm.
    unfold after_join, tag_meeting, append_to_group.
    destruct self as [h gm0 gd0 gs ratio]; simpl in *. subst gm0.
    destruct (tag_of gm R) as [label|] eqn:Htag.
    + pose proof (tag_of_truthy _ _ _ Htag) as Htr. rewrite Htr.
      destruct (proj2 Hdict Htr) as [gd ->].
      destruct gm as [labels|]; [|done]. simpl in Htag. rewrite Htag.
      simpl. rewrite lookup_app_l by (by eapply lookup_lt_Some).
      by rewrite Hl.
    + assert (∀ X, (if group_map_truthy gm
               then match gm with
                    | Some gm0 =>
                        match gm0 !! path_name R with
                        | Some label => X label
                        | None => Ok (Build_MeetingSet h gm gd0 gs ratio)
                        end
                    | None => Ok (Build_MeetingSet h gm gd0 gs ratio)
                    end
               else Ok (Build_MeetingSet h gm gd0 gs ratio))
              = Ok (Build_MeetingSet h gm gd0 gs ratio)) as ->.
      { intros X. destruct gm as [labels|]; simpl in *; [|done].
        rewrite Htag. by destruct (negb _). }
      simpl. by rewrite Hl.
Qed.

(** ** The invariant of [process] *)

Lemma wf_init (gm : option (gmap string string)) : wf gm (MeetingSet_init gm).
Proof.
  split; simpl; try done.
  - intros l Hl. by apply elem_of_nil in Hl.
  - constructor.
  - unfold is_Some.
    destruct (group_map_truthy gm); split;
      first [done | by intros [? ?] | by eexists].
  - intros gd label l Hgd. destruct (group_map_truthy gm); [|done].
    injection Hgd as <-. by rewrite lookup_empty.
Qed.

Lemma wf_groups_lt (gm : option (gmap string string)) (self : MeetingSet)
    (l : nat) :
  wf gm self → l ∈ groups self → (l < length (heap self))%nat.
Proof.
  intros Hwf Hl. destruct (wf_groups _ _ Hwf l Hl) as (m & g & H).
  by eapply lookup_lt_Some.
Qed.

Lemma wf_new_group (gm : option (gmap string string)) (self : MeetingSet)
    (R : Meeting) :
  wf gm self → wf gm (new_group self R).
Proof.
  intros Hwf. pose proof (wf_groups_lt _ _ (length (heap self)) Hwf) as Hfresh.
  destruct Hwf as [Hgm Hr Hg Hnd Hd Ht].
  split; simpl; try done.
  - intros l Hl. apply elem_of_app in Hl as [Hl|Hl].
    + destruct (Hg l Hl) as (m & g & H). exists m, g.
      by apply lookup_app_l_Some.
    + apply list_elem_of_singleton in Hl as ->. exists R, [].
      by rewrite lookup_app_r, Nat.sub_diag.
  - apply NoDup_app. split; [done|]. split; [|apply NoDup_singleton].
    intros l Hl Hl'. apply list_elem_of_singleton in Hl' as ->.
    specialize (Hfresh Hl). lia.
  - intros gd label l Hgd Hl.
    destruct (Ht gd label l Hgd Hl)
      as (Hnot & m & Hm & Hlab & l' & g & i & Hl' & Hg' & Hi).
    split.
    + intros Hin. apply elem_of_app in Hin as [Hin|Hin]; [done|].
      apply list_elem_of_singleton in Hin as ->.
      apply lookup_lt_Some in Hm. lia.
    + exists m. split; [by apply lookup_app_l_Some|]. split; [done|].
      exists l', g, i. split; [apply elem_of_app; by left|].
      split; [by apply lookup_app_l_Some|done].
Qed.

Lemma wf_after_join (gm : option (gmap string string)) (self : MeetingSet)
    (l : nat) (g : list Meeting) (R : Meeting) :
  wf gm self → l ∈ groups self → heap self !! l = Some g →
  wf gm (after_join self l g R).
Proof.
  intros Hwf Hl Hg.
  pose proof (wf_groups_lt _ _ l Hwf Hl) as Hlt.
  assert (∀ l0, l0 ∈ groups self → (l0 < length (heap self))%nat) as Hlts.
  { intros l0. by apply wf_groups_lt with gm. }
  destruct Hwf as [Hgm Hr Hgs Hnd Hd Ht].
  destruct (Hgs l Hl) as (m0 & g0 & Hg0).
  assert (g = m0 :: g0) as -> by congruence. clear Hg0.
  assert (∀ (h' : list (list Meeting)) l0,
            (∀ k x, heap self !! k = Some x → h' !! k = Some x) →
            l0 ∈ groups self →
            ∃ m x, <[l := (m0 :: g0) ++ [R]]> h' !! l0 = Some (m :: x)) as Hgroups.
  { intros h' l0 Hext Hl0. destruct (decide (l0 = l)) as [->|Hne].
    - exists m0, (g0 ++ [R]). apply list_lookup_insert_eq.
      apply Hext in Hg. by eapply lookup_lt_Some.
    - destruct (Hgs l0 Hl0) as (m & x & Hx). exists m, x.
      rewrite list_lookup_insert_ne by done. by apply Hext. }
  assert (∀ (h' : list (list Meeting)) gd label l1,
            (∀ k x, heap self !! k = Some x → h' !! k = Some x) →
            group_dict self = Some gd → gd !! label = Some l1 →
            (l1 ∉ groups self)
            ∧ ∃ m, <[l := (m0 :: g0) ++ [R]]> h' !! l1 = Some [m]
                ∧ (∃ labels, gm = Some labels
                     ∧ labels !! path_name m = Some label)
                ∧ ∃ l' x i, l' ∈ groups self
                    ∧ <[l := (m0 :: g0) ++ [R]]> h' !! l' = Some x
                    ∧ x !! S i = Some m) as Hold.
  { intros h' gd label l1 Hext Hgd Hl1.
    destruct (Ht gd label l1 Hgd Hl1)
      as (Hnot & m & Hm & Hlab & l' & x & i & Hl' & Hx & Hi).
    split; [done|]. exists m. split.
    { rewrite list_lookup_insert_ne by (intros ->; done). by apply Hext. }
    split; [done|]. destruct (decide (l' = l)) as [->|Hne].
    - exists l, ((m0 :: g0) ++ [R]), i. split; [done|]. split.
      + apply list_lookup_insert_eq. apply Hext in Hg.
        by eapply lookup_lt_Some.
      + assert (x = m0 :: g0) as -> by congruence.
        by apply lookup_app_l_Some.
    - exists l', x, i. split; [done|]. split; [|done].
      rewrite list_lookup_insert_ne by done. by apply Hext. }
  unfold after_join.
  destruct (tag_of (group_map self) R) as [label|] eqn:Htag;
    [destruct (group_dict self) as [gd|] eqn:Hgd|].
  - split; simpl; try done.
    + intros l0 Hl0. apply Hgroups; [|done].
      intros k x. apply lookup_app_l_Some.
    + rewrite <- Hd. split; intros _; by eexists.
    + intros gd' label' l1 [= <-] Hl1.
      destruct (decide (label' = label)) as [->|Hne].
      * rewrite lookup_insert_eq in Hl1. injection Hl1 as <-.
        split. { intros Hin. apply Hlts in Hin. lia. }
        exists R. split.
        { rewrite list_lookup_insert_ne by lia.
          by rewrite lookup_app_r, Nat.sub_diag. }
        split.
        { rewrite Hgm in Htag. destruct gm as [labels|]; [|done].
          by exists labels. }
        exists l, ((m0 :: g0) ++ [R]), (length g0). split; [done|]. split.
        -- apply list_lookup_insert_eq. rewrite length_app. lia.
        -- simpl. by rewrite lookup_app_r, Nat.sub_diag.
      * rewrite lookup_insert_ne in Hl1 by done.
        apply (Hold _ gd); [|done|done].
        intros k x. apply lookup_app_l_Some.
  - split; simpl; try done.
    intros l0 Hl0. by apply Hgroups.
  - split; simpl; try done.
    + intros l0 Hl0. by apply Hgroups.
    + intros gd label l1 Hgd Hl1. by apply (Hold _ gd).
Qed.

Lemma process_meeting_wf (gm : option (gmap string string))
    (self : MeetingSet) (R : Meeting) :
  wf gm self → ∃ self', process_meeting self R = Ok self' ∧ wf gm self'.
Proof.
  intros Hwf.
  destruct (process_meeting_cases gm self R Hwf)
    as [[_ ->]|(i & l & g & Hi & Hl & _ & _ & ->)].
  - eexists. split; [done|]. by apply wf_new_group.
  - eexists. split; [done|]. apply wf_after_join; [done| |done].
    by eapply list_elem_of_lookup_2.
Qed.

Lemma run_snoc (self : MeetingSet) (ms : list Meeting) (R : Meeting) :
  run self (ms ++ [R]) = self' ← run self ms; process_meeting self' R.
Proof.
  unfold run. revert self. induction ms as [|m ms IH]; intros self; simpl.
  - by destruct (process_meeting self R).
  - destruct (process_meeting self m); simpl; [apply IH|done].
Qed.

(** [process] never raises on meetings that parsed, and keeps the
    invariant. *)
Lemma run_wf (gm : option (gmap string string)) (ms : list Meeting)
    (self : MeetingSet) :
  wf gm self → ∃ self', run self ms = Ok self' ∧ wf gm self'.
Proof.
  unfold run. revert self. induction ms as [|m ms IH]; intros self Hwf; simpl.
  - by exists self.
  - destruct (process_meeting_wf gm self m Hwf) as (self1 & -> & Hwf1).
    simpl. by apply IH.
Qed.

Lemma run_init_wf (gm : option (gmap string string)) (ms : list Meeting)
    (self : MeetingSet) :
  run (MeetingSet_init gm) ms = Ok self → wf gm self.
Proof.
  intros Hrun. destruct (run_wf gm ms _ (wf_init gm)) as (self' & Hrun' & Hwf).
  congruence.
Qed.

(** ** The groupings as values *)

Lemma clusters_lookup (self : MeetingSet) (i l : nat) (g : list Meeting) :
  groups self !! i = Some l → heap self !! l = Some g →
  clusters self !! i = Some g.
Proof.
  intros Hi Hl. unfold clusters. by rewrite list_lookup_fmap, Hi; simpl; rewrite Hl.
Qed.

Lemma clusters_new_group (gm : option (gmap string string))
    (self : MeetingSet) (R : Meeting) :
  wf gm self → clusters (new_group self R) = clusters self ++ [[R]].
Proof.
  intros Hwf. unfold clusters, new_group. simpl. rewrite fmap_app. simpl.
  rewrite lookup_app_r, Nat.sub_diag by done. simpl. f_equal.
  apply list_fmap_ext. intros i l Hi.
  destruct (wf_groups _ _ Hwf l) as (m & g & Hl).
  { by eapply list_elem_of_lookup_2. }
  by rewrite (lookup_app_l_Some _ _ _ _ Hl), Hl.
Qed.

Lemma heap_after_join (self : MeetingSet) (l : nat) (g : list Meeting)
    (R : Meeting) :
  ∃ cell, heap (after_join self l g R) = <[l := g ++ [R]]> (heap self ++ cell).
Proof.
  unfold after_join.
  destruct (tag_of _ _); [destruct (group_dict self)|]; simpl.
  - by exists [[R]].
  - exists []. by rewrite app_nil_r.
  - exists []. by rewrite app_nil_r.
Qed.

Lemma groups_after_join (self : MeetingSet) (l : nat) (g : list Meeting)
    (R : Meeting) :
  groups (after_join self l g R) = groups self.
Proof.
  unfold after_join. by destruct (tag_of _ _); [destruct (group_dict self)|].
Qed.

Lemma lookup_after_join_eq (self : MeetingSet) (l : nat) (g : list Meeting)
    (R : Meeting) :
  (l < length (heap self))%nat →
  heap (after_join self l g R) !! l = Some (g ++ [R]).
Proof.
  intros Hlt. destruct (heap_after_join self l g R) as [cell ->].
  apply list_lookup_insert_eq. rewrite length_app. lia.
Qed.

Lemma lookup_after_join_ne (self : MeetingSet) (l l' : nat)
    (g x : list Meeting) (R : Meeting) :
  l' ≠ l → heap self !! l' = Some x →
  heap (after_join self l g R) !! l' = Some x.
Proof.
  intros Hne Hl'. destruct (heap_after_join self l g R) as [cell ->].
  rewrite list_lookup_insert_ne by done. by apply lookup_app_l_Some.
Qed.

Lemma clusters_after_join (gm : option (gmap string string))
    (self : MeetingSet) (i l : nat) (g : list Meeting) (R : Meeting) :
  wf gm self → groups self !! i = Some l → heap self !! l = Some g →
  clusters (after_join self l g R) = <[i := g ++ [R]]> (clusters self).
Proof.
  intros Hwf Hi Hl. apply list_eq. intros k.
  assert (i < length (clusters self))%nat as Hilt.
  { unfold clusters. rewrite length_fmap. by eapply lookup_lt_Some. }
  destruct (decide (k = i)) as [->|Hne].
  - rewrite list_lookup_insert_eq by done.
    apply clusters_lookup with l; [by rewrite groups_after_join|].
    apply lookup_after_join_eq. by eapply lookup_lt_Some.
  - rewrite list_lookup_insert_ne by done.
    unfold clusters. rewrite !list_lookup_fmap, groups_after_join.
    destruct (groups self !! k) as [l'|] eqn:Hk; [simpl|done].
    assert (l' ≠ l) as Hne'.
    { intros ->. apply Hne. by eapply NoDup_lookup; [apply Hwf|..]. }
    destruct (wf_groups _ _ Hwf l') as (m & x & Hx).
    { by eapply list_elem_of_lookup_2. }
    by rewrite (lookup_after_join_ne self l l' g _ R Hne' Hx), Hx.
Qed.

(** ** Two records with the same attendees, one right after the other *)





(** ** [fill_group_dict] *)

Lemma fill_loop_foldl (h : list (list Meeting)) (labels : gmap string string)
    (gs : list nat) (gd : gmap string nat) :
  (∀ l, l ∈ gs → ∃ m g, h !! l = Some (m :: g)) →
  fill_loop h (Some labels) gs (Some gd)
  = Ok (Some (foldl (resolve_step h labels) gd gs)).
Proof.
  revert gd. induction gs as [|l gs IH]; intros gd Hne; [done|].
  destruct (Hne l) as (m & g & Hl); [by left|].
  cbn [fill_loop foldl]. unfold resolve_step at 2, label_at. rewrite Hl.
  cbn [mbind option_bind].
  destruct (first_label labels (m :: g)); apply IH;
    intros l' Hl'; apply Hne; by right.
Qed.

Lemma resolve_untouched (h : list (list Meeting)) (labels : gmap string string)
    (gs : list nat) (gd : gmap string nat) (label : string) :
  (∀ l, l ∈ gs → label_at h labels l ≠ Some label) →
  foldl (resolve_step h labels) gd gs !! label = gd !! label.
Proof.
  revert gd. induction gs as [|l gs IH]; intros gd Hno; [done|].
  cbn [foldl]. rewrite IH by (intros l' Hl'; apply Hno; by right).
  unfold resolve_step. destruct (label_at h labels l) as [label'|] eqn:E; [|done].
  apply lookup_insert_ne. intros ->. by apply (Hno l); [left|].
Qed.

Lemma resolve_last (h : list (list Meeting)) (labels : gmap string string)
    (gs : list nat) (gd : gmap string nat) (label : string) (i l : nat) :
  gs !! i = Some l → label_at h labels l = Some label →
  (∀ j l', (i < j)%nat → gs !! j = Some l' → label_at h labels l' ≠ Some label) →
  foldl (resolve_step h labels) gd gs !! label = Some l.
Proof.
  revert gd i. induction gs as [|l0 gs IH]; intros gd i Hi Hlab Hlater; [done|].
  cbn [foldl]. destruct i as [|i].
  - injection Hi as ->. rewrite resolve_untouched.
    + unfold resolve_step. rewrite Hlab. apply lookup_insert_eq.
    + intros l' Hl'. apply list_elem_of_lookup_1 in Hl' as [j Hj].
      apply (Hlater (S j)); [lia|done].
  - apply (IH _ i); [done|done|].
    intros j l' Hj Hl'. apply (Hlater (S j)); [lia|done].
Qed.

Lemma resolve_origin (h : list (list Meeting)) (labels : gmap string string)
    (gs : list nat) (gd : gmap string nat) (label : string) (l : nat) :
  foldl (resolve_step h labels) gd gs !! label = Some l →
  gd !! label = Some l ∨ (l ∈ gs ∧ label_at h labels l = Some label).
Proof.
  revert gd. induction gs as [|l0 gs IH]; intros gd H; [by left|].
  cbn [foldl] in H. apply IH in H as [H|[Hin Hlab]].
  - unfold resolve_step in H.
    destruct (label_at h labels l0) as [label0|] eqn:E; [|by left].
    destruct (decide (label0 = label)) as [->|Hne].
    + rewrite lookup_insert_eq in H. injection H as <-.
      right. split; [by left|done].
    + rewrite lookup_insert_ne in H by done. by left.
  - right. split; [by right|done].
Qed.

Lemma first_label_tagged (labels : gmap string string) (g : list Meeting) :
  (∀ k v, labels !! k = Some v → v ≠ EmptyString) →
  first_label labels g = first_tagged labels g.
Proof.
  intros Hne. induction g as [|m g IH]; [done|]. simpl.
  destruct (labels !! path_name m) as [label|] eqn:E; [|done].
  rewrite bool_decide_eq_false_2; [done|]. by eapply Hne.
Qed.

(** ** Reading a report *)

Lemma make_datetime_late_hour (year month day hour minute : Z) :
  24 <= hour → make_datetime year month day hour minute = Err ValueError.
Proof.
  intros H. unfold make_datetime.
  assert ((hour <=? 23) = false) as -> by lia.
  by rewrite !andb_false_r.
Qed.

Lemma bind_raises {A B} (r : result A) (f : A → result B) :
  (∀ a, r = Ok a → raises (f a)) → raises (mbind f r).
Proof.
  intros H. destruct r as [a|e]; simpl.
  - by apply H.
  - by exists e.
Qed.

Lemma process_app (self : MeetingSet) (gen1 gen2 : list (result Meeting)) :
  process self (gen1 ++ gen2) = self1 ← process self gen1; process self1 gen2.
Proof.
  revert self. induction gen1 as [|[m|e] gen1 IH]; intros self; simpl; try done.
  destruct (process_meeting self m) as [self1|e]; simpl; [apply IH|done].
Qed.

Lemma iter_csvs_app (match_student : Z → string → result (option string))
    (dir1 dir2 : list (string * list (list string))) :
  iter_csvs match_student (dir1 ++ dir2)
  = iter_csvs match_student dir1 ++ iter_csvs match_student dir2.
Proof. apply omap_app. Qed.

(** ** The thresholds *)

Lemma forallb_all_ints (t : gmap string pyval) :
  forallb isinstance_int (map_to_list t).*2 = true ↔ all_ints t.
Proof.
  rewrite forallb_forall. unfold all_ints. split.
  - intros H k v Hk. apply H, list_elem_of_In, list_elem_of_fmap.
    exists (k, v). split; [done|]. by apply elem_of_map_to_list.
  - intros H v Hv. apply list_elem_of_In, list_elem_of_fmap in Hv
      as ([k v'] & -> & Hkv).
    apply elem_of_map_to_list in Hkv. by eapply H.
Qed.

Lemma as_int_isinstance (v : pyval) :
  isinstance_int v = true → ∃ z, as_int v = Some z.
Proof. unfold isinstance_int. destruct (as_int v); [eauto|done]. Qed.

Lemma validate_accepts (t : gmap string pyval) :
  t ≠ ∅ → increasing_ints t → all_ints t →
  validate_or_generate_thresholds (Some t) = Ok t.
Proof.
  intros Hne (r & y & g & Hr & Hy & Hg & Hlt1 & Hlt2) Hall.
  unfold validate_or_generate_thresholds, threshold_int in *.
  rewrite bool_decide_eq_false_2 by done.
  destruct (t !! "red") as [vr|]; [|done].
  destruct (t !! "yellow") as [vy|]; [|done].
  destruct (t !! "green") as [vg|]; [|done].
  simpl in *. unfold chained_lt, py_lt. rewrite Hr, Hy, Hg.
  assert ((r <? y) = true) as -> by lia.
  assert ((y <? g) = true) as -> by lia.
  simpl. by rewrite (proj2 (forallb_all_ints t) Hall).
Qed.

Lemma validate_sound (t t' : gmap string pyval) :
  t ≠ ∅ → validate_or_generate_thresholds (Some t) = Ok t' →
  t' = t ∧ increasing_ints t ∧ all_ints t.
Proof.
  intros Hne. unfold validate_or_generate_thresholds.
  rewrite bool_decide_eq_false_2 by done.
  destruct (t !! "red") as [vr|] eqn:Hr; [|done].
  destruct (t !! "yellow") as [vy|] eqn:Hy; [|done].
  destruct (t !! "green") as [vg|] eqn:Hg; [|done].
  simpl.
  destruct (chained_lt vr vy vg) as [[|]|e] eqn:Hlt; simpl; try done.
  destruct (forallb isinstance_int (map_to_list t).*2) eqn:Hall;
    simpl; [|done].
  intros [= <-]. apply forallb_all_ints in Hall.
  split; [done|]. split; [|done].
  destruct (as_int_isinstance vr (Hall _ _ Hr)) as [r Hvr].
  destruct (as_int_isinstance vy (Hall _ _ Hy)) as [y Hvy].
  destruct (as_int_isinstance vg (Hall _ _ Hg)) as [g Hvg].
  exists r, y, g. unfold threshold_int. rewrite Hr, Hy, Hg. simpl.
  repeat (split; [done|]).
  unfold chained_lt, py_lt in Hlt. rewrite Hvr, Hvy, Hvg in Hlt.
  destruct (r <? y) eqn:E1; [|done]. injection Hlt as E2. lia.
Qed.


(** Passing any keyword to the constructor already fails in
    [object.__init__]. *)
Lemma ExcelWriter_init_keyword (ms : MeetingSet) (a : list pyval)
    (kw : gmap string (option (gmap string pyval))) :
  kw ≠ ∅ → ExcelWriter_init ms a kw = Err TypeError.
Proof.
  intros Hne. unfold ExcelWriter_init, object_init.
  destruct a; [|done]. by rewrite bool_decide_eq_false_2.
Qed.

(** ** The model on the scenarios of the specification *)

(** Attendee sets {A,B,C}, {A,B,C,D} and {X,Y,Z}, in that order, give two
    clusters. *)
Example scenario_three_meetings :
  clusters <$> run (MeetingSet_init None) [rec_abc; rec_abcd; rec_xyz]
  = Ok [[rec_abc; rec_abcd]; [rec_xyz]].
Proof. reflexivity. Qed.

(** Among records of equal size [max] returns the first. *)
Example py_max_keeps_first_of_ties :
  py_max [rec_pair; rec_tie1; rec_tie2; rec_abc] = Ok rec_tie1.
Proof. reflexivity. Qed.

(** An afternoon hour other than 12 is read as intended. *)
Example open_report_one_pm :
  meeting_datetime <$>
    open_report echo_student "6 health mon.csv"
      (report_rows "09/24/2020 01:10:00 PM" "40")
  = Ok {| dt_year := 2020; dt_month := 9; dt_day := 24;
          dt_hour := 13; dt_minute := 10 |}.
Proof. reflexivity. Qed.

(** [if label:] passes over a record tagged with the empty string, so the
    cluster gets the label of a later record. *)
Example empty_label_is_skipped :
  first_tagged blank_label [rec_abc; rec_abcd] = Some EmptyString
  ∧ first_label blank_label [rec_abc; rec_abcd] = Some "Health"%string.
Proof. split; reflexivity. Qed.

(** ** The code against the words of the specification *)

Lemma remove_dups_NoDup (l : list string) : NoDup l → remove_dups l = l.
Proof.
  induction 1 as [|x l Hx Hl IH]; [done|]. cbn [remove_dups].
  destruct (decide_rel elem_of x l); [done|]. by rewrite IH.
Qed.

Lemma size_list_to_set_dups (l : list string) :
  size (list_to_set l : gset string) = length (remove_dups l).
Proof.
  rewrite <- (size_list_to_set (C := gset string) (remove_dups l))
    by apply NoDup_remove_dups.
  f_equal. apply set_eq. intros x.
  by rewrite !elem_of_list_to_set, elem_of_remove_dups.
Qed.

Lemma union_size_spec (P R : Meeting) : union_size P R = spec_union P R.
Proof.
  unfold union_size, spec_union, name_set.
  rewrite <- list_to_set_app_L. apply size_list_to_set_dups.
Qed.

Lemma total_size_spec (P R : Meeting) : total_size P R = spec_total P R.
Proof.
  unfold total_size, spec_total, attendee_count, name_set.
  by rewrite !size_list_to_set_dups.
Qed.

Lemma accepts_spec_test (ratio : Q) (P R : Meeting) :
  accepts ratio P R ↔ spec_test ratio P R.
Proof.
  unfold accepts, spec_test. by rewrite union_size_spec, total_size_spec.
Qed.

Lemma first_largest_unique (g : list Meeting) (P P' : Meeting) :
  first_largest g P → first_largest g P' → P = P'.
Proof.
  intros (i & Hi & Hle & Hlt) (i' & Hi' & Hle' & Hlt').
  destruct (Nat.lt_trichotomy i i') as [Hii|[->|Hii]].
  - specialize (Hlt' _ _ Hii Hi). specialize (Hle _ _ Hi'). lia.
  - congruence.
  - specialize (Hlt _ _ Hii Hi'). specialize (Hle' _ _ Hi). lia.
Qed.

Lemma cluster_accepts_takes (self : MeetingSet) (l : nat) (g : list Meeting)
    (R : Meeting) :
  TOTAL_TO_UNION_RATIO_ADJUSTMENT self = (3 # 4)%Q →
  heap self !! l = Some g →
  cluster_accepts self l R ↔ cluster_takes g R.
Proof.
  intros Hr Hg. unfold cluster_accepts, rep_accepts, cluster_takes.
  rewrite Hr. split.
  - intros (g0 & P & Hg0 & HP & Hacc). assert (g0 = g) as -> by congruence.
    exists P. split; [|by apply accepts_spec_test].
    destruct g as [|m g]; [done|].
    destruct (py_max_first_largest m g) as (p & Hp & Hfl). congruence.
  - intros (P & Hfl & Ht). exists g, P. split; [done|].
    split; [|by apply accepts_spec_test].
    destruct g as [|m g]; [by destruct Hfl as (i & Hi & _)|].
    destruct (py_max_first_largest m g) as (p & Hp & Hfl').
    by rewrite (first_largest_unique _ _ _ Hfl Hfl').
Qed.

Lemma clusters_lookup_inv (gm : option (gmap string string))
    (self : MeetingSet) (i : nat) (g : list Meeting) :
  wf gm self → clusters self !! i = Some g →
  ∃ l, groups self !! i = Some l ∧ heap self !! l = Some g.
Proof.
  intros Hwf H. unfold clusters in H. rewrite list_lookup_fmap in H.
  destruct (groups self !! i) as [l|] eqn:Hi; [|done].
  simpl in H. injection H as <-. exists l. split; [done|].
  destruct (wf_groups _ _ Hwf l) as (m & x & Hx).
  { by eapply list_elem_of_lookup_2. }
  by rewrite Hx.
Qed.

Lemma first_largest_most_attendees (g : list Meeting) (P : Meeting) :
  Forall (λ m, NoDup (attendees m)) g →
  first_largest g P → most_attendees_first g P.
Proof.
  intros Hnd (i & Hi & Hle & Hlt).
  assert (∀ j m, g !! j = Some m →
            attendee_count m = length (attendees m)) as Hc.
  { intros j m Hj. unfold attendee_count. rewrite remove_dups_NoDup; [done|].
    rewrite Forall_forall in Hnd. apply Hnd.
    by eapply list_elem_of_lookup_2. }
  exists i. split; [done|]. split.
  - intros j m Hj. rewrite (Hc _ _ Hj), (Hc _ _ Hi). eauto.
  - intros j m Hjl Hj. rewrite (Hc _ _ Hj), (Hc _ _ Hi). eauto.
Qed.






(** * The claims *)

(** C1, as stated, fails. The representative the code tests is the record
    of the cluster with the most attendee entries, and a student that two
    rows of a report resolve to is counted twice there. [rec_dup_y], five
    entries for two students, joins the cluster of [rec_dup_x] and becomes
    its representative. The record of the cluster with the most attendees
    is still [rec_dup_x], and it passes the test against [rec_bc]
    (5 * 0.75 > 3); but [rec_bc] is tested against [rec_dup_y]
    (4 * 0.75 > 3 fails) and starts a cluster of its own. *)
Lemma C1_counterexample :
  ∃ self self',
    run (MeetingSet_init None) [rec_dup_x; rec_dup_y] = Ok self
    ∧ clusters self = [[rec_dup_x; rec_dup_y]]
    ∧ most_attendees_first [rec_dup_x; rec_dup_y] rec_dup_x
    ∧ spec_test (3 # 4) rec_dup_x rec_bc
    ∧ process_meeting self rec_bc = Ok self'
    ∧ clusters self' = [[rec_dup_x; rec_dup_y]; [rec_bc]].
Proof.
  eexists. eexists. split; [reflexivity|]. split; [reflexivity|]. split.
  { exists 0%nat. split; [reflexivity|]. split.
    - intros [|[|j]] m Hj; [| |done]; injection Hj as <-; vm_compute; lia.
    - intros j m Hj. lia. }
  split; [by vm_compute|]. split; reflexivity.
Qed.

(** C1, amended. Every incoming record [R] is tried against the clusters
    in creation order and joins the first one whose representative [P]
    satisfies [total * 0.75 > union], with [union] the size of the union
    of the two attendee sets and [total] the sum of their sizes, where the
    representative is the first record of the cluster with the most
    attendee entries; when no cluster satisfies the test a new cluster
    holding only [R] is appended to the cluster list. The step never
    raises. *)
Theorem C1_first_accepting_cluster_or_new (gm : option (gmap string string))
    (ms : list Meeting) (self : MeetingSet) (R : Meeting) :
  run (MeetingSet_init gm) ms = Ok self →
  ∃ self', process_meeting self R = Ok self'
    ∧ (assigned_to_first_taking (clusters self) (clusters self') R
       ∨ starts_singleton (clusters self) (clusters self') R).
Proof.
  intros Hrun. pose proof (run_init_wf _ _ _ Hrun) as Hwf.
  pose proof (wf_ratio _ _ Hwf) as Hratio.
  destruct (process_meeting_cases gm self R Hwf)
    as [[Hrej ->]|(i & l & g & Hi & Hl & Hacc & Hbefore & ->)].
  - eexists. split; [done|]. right. split; [|by eapply clusters_new_group].
    intros g Hg Htakes. apply list_elem_of_lookup_1 in Hg as [i Hi].
    destruct (clusters_lookup_inv gm self i g Hwf Hi) as (l & Hil & Hl).
    apply (Hrej l); [by eapply list_elem_of_lookup_2|].
    by apply (cluster_accepts_takes self l g R Hratio Hl).
  - eexists. split; [done|]. left. exists i, g.
    split; [by apply clusters_lookup with l|].
    split; [by apply (cluster_accepts_takes self l g R Hratio Hl)|].
    split; [|by eapply clusters_after_join].
    intros j g' Hj Hg' Htakes.
    destruct (clusters_lookup_inv gm self j g' Hwf Hg') as (l' & Hjl & Hl').
    apply (Hbefore j l' Hj Hjl).
    by apply (cluster_accepts_takes self l' g' R Hratio Hl').
Qed.

Lemma C1_witness :
  ∃ self', process_meeting (state_of [[rec_abc]] [0%nat]) rec_abcd = Ok self'
    ∧ (assigned_to_first_taking (clusters (state_of [[rec_abc]] [0%nat]))
         (clusters self') rec_abcd
       ∨ starts_singleton (clusters (state_of [[rec_abc]] [0%nat]))
           (clusters self') rec_abcd).
Proof.
  apply (C1_first_accepting_cluster_or_new None [rec_abc]). reflexivity.
Defined.

(** C2, as stated, fails: the representative is chosen by the number of
    attendee entries, in which a student that two rows of the report
    resolve to counts twice, not by the number of attendees. After
    [rec_dup_x] and [rec_dup_y] the scan tests their cluster through
    [rec_dup_y], which has two attendees, although [rec_dup_x] has
    three. *)
Lemma C2_counterexample :
  ∃ self,
    run (MeetingSet_init None) [rec_dup_x; rec_dup_y] = Ok self
    ∧ clusters self = [[rec_dup_x; rec_dup_y]]
    ∧ (∀ ratio gs R,
         match_loop (heap self) ratio (0%nat :: gs) R =
         if union_test ratio rec_dup_y R then Ok (Some 0%nat)
         else match_loop (heap self) ratio gs R)
    ∧ attendee_count rec_dup_x = 3%nat
    ∧ attendee_count rec_dup_y = 2%nat
    ∧ ¬ most_attendees_first [rec_dup_x; rec_dup_y] rec_dup_y.
Proof.
  eexists. split; [reflexivity|]. split; [reflexivity|].
  split; [reflexivity|]. split; [reflexivity|]. split; [reflexivity|].
  intros (i & _ & Hle & _).
  specialize (Hle 0%nat rec_dup_x eq_refl). vm_compute in Hle. lia.
Qed.

(** C2, amended. For every cluster at every point of a run, the
    representative the similarity test is made against is the member with
    the largest number of attendee entries, and among members with that
    many the one appended first; when no member lists a student twice it
    is the member with the largest number of attendees. *)
Theorem C2_representative_is_first_largest (gm : option (gmap string string))
    (ms : list Meeting) (self : MeetingSet) (l : nat) :
  run (MeetingSet_init gm) ms = Ok self → l ∈ groups self →
  ∃ g P, heap self !! l = Some g
    ∧ py_max g = Ok P
    ∧ first_largest g P
    ∧ (Forall (λ m, NoDup (attendees m)) g → most_attendees_first g P)
    ∧ ∀ ratio gs R,
        match_loop (heap self) ratio (l :: gs) R =
        if union_test ratio P R then Ok (Some l)
        else match_loop (heap self) ratio gs R.
Proof.
  intros Hrun Hl. pose proof (run_init_wf _ _ _ Hrun) as Hwf.
  destruct (wf_groups _ _ Hwf l Hl) as (m & g & Hg).
  destruct (py_max_first_largest m g) as (P & HP & Hfirst).
  exists (m :: g), P. repeat (split; [done|]).
  split; [intros Hnd; by apply first_largest_most_attendees|].
  intros ratio gs R. cbn [match_loop]. rewrite Hg.
  injection HP as <-. reflexivity.
Qed.

Lemma C2_witness :
  ∃ g P, heap (state_of [[rec_abc]] [0%nat]) !! 0%nat = Some g
    ∧ py_max g = Ok P
    ∧ first_largest g P
    ∧ (Forall (λ m, NoDup (attendees m)) g → most_attendees_first g P)
    ∧ ∀ ratio gs R,
        match_loop (heap (state_of [[rec_abc]] [0%nat])) ratio (0%nat :: gs) R =
        if union_test ratio P R then Ok (Some 0%nat)
        else match_loop (heap (state_of [[rec_abc]] [0%nat])) ratio gs R.
Proof.
  apply (C2_representative_is_first_largest None [rec_abc]).
  - reflexivity.
  - apply list_elem_of_here.
Defined.




(** C4. A record with no attendee, arriving when no cluster has a
    representative without attendees, always starts a new cluster of its
    own: the iteration returns normally, and a [total] of 0 is never a
    match (the test multiplies, it does not divide). *)
Theorem C4_empty_record_starts_new_cluster (gm : option (gmap string string))
    (ms : list Meeting) (self : MeetingSet) (R : Meeting) :
  run (MeetingSet_init gm) ms = Ok self →
  attendees R = [] →
  (∀ l g P, l ∈ groups self → heap self !! l = Some g → py_max g = Ok P →
     attendees P ≠ []) →
  process_meeting self R = Ok (new_group self R)
  ∧ clusters (new_group self R) = clusters self ++ [[R]]
  ∧ ∀ ratio P R', total_size P R' = 0%nat → union_test ratio P R' = false.
Proof.
  intros Hrun HR Hreps. pose proof (run_init_wf _ _ _ Hrun) as Hwf.
  split; [|split].
  - destruct (process_meeting_cases gm self R Hwf)
      as [[_ H]|(i & l & g & Hi & Hl & Hacc & _)]; [done|].
    exfalso. destruct Hacc as (g' & P & Hg' & HP & Hacc).
    apply union_test_accepts in Hacc.
    rewrite empty_record_rejected in Hacc; [done| |].
    + by apply name_set_empty.
    + right. rewrite (wf_ratio _ _ Hwf). unfold Qle. simpl. lia.
  - by eapply clusters_new_group.
  - intros ratio P R' Htot. apply union_test_rejects. rewrite accepts_Z.
    rewrite Htot. assert (union_size P R' = 0)%nat as ->; [|simpl; lia].
    unfold total_size in Htot. unfold union_size.
    assert (size (name_set P) = 0)%nat as HP by lia.
    assert (size (name_set R') = 0)%nat as HR' by lia.
    apply size_empty_iff, leibniz_equiv_iff in HP, HR'.
    by rewrite HP, HR', union_empty_r_L, size_empty.
Qed.

Lemma C4_witness :
  process_meeting (state_of [[rec_abc]] [0%nat]) rec_empty1
  = Ok (new_group (state_of [[rec_abc]] [0%nat]) rec_empty1)
  ∧ clusters (new_group (state_of [[rec_abc]] [0%nat]) rec_empty1)
    = clusters (state_of [[rec_abc]] [0%nat]) ++ [[rec_empty1]]
  ∧ ∀ ratio P R', total_size P R' = 0%nat → union_test ratio P R' = false.
Proof.
  apply (C4_empty_record_starts_new_cluster None [rec_abc]).
  - reflexivity.
  - reflexivity.
  - intros l g P Hl Hg HP. apply list_elem_of_singleton in Hl. subst l.
    injection Hg as <-. injection HP as <-. discriminate.
Defined.

(** C5, as stated, fails: a record without attendees is not accepted by a
    cluster whose representative has no attendees either. With [rec_empty1]
    alone in the first cluster, [rec_empty2] is rejected ([0 * 0.75 > 0] is
    false) and starts a second cluster. *)
Lemma C5_counterexample :
  attendees rec_empty1 = [] ∧ attendees rec_empty2 = []
  ∧ run (MeetingSet_init None) [rec_empty1] = Ok (state_of [[rec_empty1]] [0%nat])
  ∧ py_max [rec_empty1] = Ok rec_empty1
  ∧ union_test (3 # 4) rec_empty1 rec_empty2 = false
  ∧ ¬ cluster_accepts (state_of [[rec_empty1]] [0%nat]) 0%nat rec_empty2
  ∧ ∃ self', process_meeting (state_of [[rec_empty1]] [0%nat]) rec_empty2 = Ok self'
      ∧ clusters self' = [[rec_empty1]; [rec_empty2]].
Proof.
  repeat (split; [reflexivity|]). split.
  - intros (g & P & Hg & HP & Hacc). injection Hg as <-. injection HP as <-.
    apply union_test_accepts in Hacc. discriminate.
  - eexists. split; reflexivity.
Qed.

(** C5, amended. A record without attendees is accepted by a cluster
    exactly when the representative has attendees and the ratio exceeds 1:
    it is never accepted by a representative without attendees, whatever
    the ratio, and never by any representative at the default 0.75. *)
Theorem C5_empty_record_never_accepted (ratio : Q) (P R : Meeting) :
  name_set R = ∅ →
  (union_test ratio P R = true ↔ name_set P ≠ ∅ ∧ (1 < ratio)%Q)
  ∧ union_test (3 # 4) P R = false.
Proof.
  intros HR. split.
  - destruct (decide (name_set P = ∅)) as [HP|HP].
    + rewrite empty_record_rejected by auto.
      split; [done|]. by intros [Hne _].
    + rewrite union_test_accepts, accepts_Z.
      unfold union_size, total_size. rewrite HR, union_empty_r_L.
      rewrite size_empty, Nat.add_0_r.
      assert (size (name_set P) ≠ 0)%nat as Hsz.
      { intros Hz. by apply size_empty_iff, leibniz_equiv_iff in Hz. }
      unfold Qlt. simpl. split; [split; [done|nia]|intros [_ ?]; nia].
  - apply empty_record_rejected; [done|]. right. unfold Qle. simpl. lia.
Qed.

Lemma C5_witness :
  (union_test (3 # 4) rec_empty1 rec_empty2 = true
   ↔ name_set rec_empty1 ≠ ∅ ∧ (1 < 3 # 4)%Q)
  ∧ union_test (3 # 4) rec_empty1 rec_empty2 = false.
Proof.
  apply (C5_empty_record_never_accepted (3 # 4) rec_empty1 rec_empty2).
  reflexivity.
Defined.

(** C6, as stated, fails. [rec_pair] and [rec_twin1] start one cluster each
    and both files are tagged "Homeroom 6A". [process] resolves nothing by
    itself ([group_dict] is still empty), and after [fill_group_dict] the
    label is mapped to the second cluster, not to the first one, whose
    first tagged record carries it as well. Besides, in a cluster whose
    first tagged record has the empty label, the cluster is stored under
    the label of a later record. *)
Lemma C6_counterexample :
  (∃ self self' gd,
     run (MeetingSet_init (Some shared_label)) [rec_pair; rec_twin1] = Ok self
     ∧ group_dict self = Some ∅
     ∧ fill_group_dict self = Ok self'
     ∧ group_dict self' = Some gd
     ∧ clusters self' = [[rec_pair]; [rec_twin1]]
     ∧ resolves_to shared_label self' 0 0 "Homeroom 6A"
     ∧ gd !! "Homeroom 6A" = Some 1%nat
     ∧ gd !! "Homeroom 6A" ≠ Some 0%nat)
  ∧ (∃ self self' gd,
       run (MeetingSet_init (Some blank_label)) [rec_abc; rec_abcd] = Ok self
       ∧ fill_group_dict self = Ok self'
       ∧ group_dict self' = Some gd
       ∧ clusters self' = [[rec_abc; rec_abcd]]
       ∧ resolves_to blank_label self' 0 0 ""
       ∧ gd !! "" = None
       ∧ gd !! "Health" = Some 0%nat).
Proof.
  split.
  - eexists _, _, _. split; [reflexivity|]. split; [reflexivity|].
    split; [reflexivity|]. split; [reflexivity|]. split; [reflexivity|].
    split; [by exists [rec_pair]|]. split; [reflexivity|].
    vm_compute. discriminate.
  - eexists _, _, _. split; [reflexivity|]. split; [reflexivity|].
    split; [reflexivity|]. split; [reflexivity|].
    split; [by exists [rec_abc; rec_abcd]|]. split; reflexivity.
Qed.

(** C6, amended. With a non-empty label map whose labels are non-empty,
    [fill_group_dict] run after all records are assigned ([process] does
    not run it) returns normally and leaves the clusters as they are; it
    maps the label of the first tagged record of a cluster to that very
    cluster object, provided no cluster created later resolves to the same
    label, and a cluster without a tagged record is not a value of the
    dict. *)
Theorem C6_label_resolution (labels : gmap string string)
    (ms : list Meeting) (self : MeetingSet) :
  labels ≠ ∅ →
  (∀ k v, labels !! k = Some v → v ≠ EmptyString) →
  run (MeetingSet_init (Some labels)) ms = Ok self →
  ∃ self' gd, fill_group_dict self = Ok self'
    ∧ groups self' = groups self ∧ heap self' = heap self
    ∧ group_dict self' = Some gd
    ∧ label_dict_resolved labels self gd.
Proof.
  intros Hlabels Hne Hrun. pose proof (run_init_wf _ _ _ Hrun) as Hwf.
  assert (group_map_truthy (Some labels) = true) as Htruthy.
  { simpl. by apply negb_true_iff, bool_decide_eq_false. }
  destruct (proj2 (wf_dict _ _ Hwf) Htruthy) as [gd Hgd].
  assert (∀ l g, heap self !! l = Some g →
            label_at (heap self) labels l = first_tagged labels g) as Hlab.
  { intros l g Hl. unfold label_at. rewrite Hl. simpl.
    by apply first_label_tagged. }
  unfold fill_group_dict.
  rewrite (wf_group_map _ _ Hwf), Hgd, fill_loop_foldl by apply Hwf.
  eexists _, _. split; [done|]. simpl. repeat (split; [done|]). split.
  - intros i l label (g & Hi & Hl & Hfirst) Hlater.
    apply (resolve_last _ _ _ _ _ i); [done|by rewrite (Hlab l g)|].
    intros j l' Hj Hl' Hact. apply (Hlater j l' Hj).
    destruct (wf_groups _ _ Hwf l') as (m & g' & Hg').
    { by eapply list_elem_of_lookup_2. }
    exists (m :: g'). by rewrite <- (Hlab l' _ Hg').
  - intros label l Hl Hin. apply resolve_origin in Hl as [Hold|[_ Hact]].
    + exfalso. by destruct (wf_tags _ _ Hwf gd label l Hgd Hold) as [Hnot _].
    + apply list_elem_of_lookup_1 in Hin as [i Hi]. exists i.
      destruct (wf_groups _ _ Hwf l) as (m & g & Hg).
      { by eapply list_elem_of_lookup_2. }
      exists (m :: g). by rewrite <- (Hlab l _ Hg).
Qed.

Lemma C6_witness :
  ∃ self' gd, fill_group_dict tagged_state = Ok self'
    ∧ groups self' = groups tagged_state ∧ heap self' = heap tagged_state
    ∧ group_dict self' = Some gd
    ∧ label_dict_resolved tue_label tagged_state gd.
Proof.
  apply (C6_label_resolution tue_label [rec_abc; rec_abcd]).
  - intros H. apply (f_equal size) in H. vm_compute in H. discriminate.
  - intros k v H. unfold tue_label in H.
    apply lookup_singleton_Some in H as [_ <-]. discriminate.
  - reflexivity.
Defined.

(** C7, as stated, fails: the report without a start time makes
    [Meeting(...)] raise [ValueError], nothing catches it, and [process]
    ends with that exception although the next report is a good one. No
    state comes back, so there is neither a clustering of the good report
    nor a list of skipped files. *)
Lemma C7_counterexample :
  open_report echo_student "6 health mon.csv" rows_no_time = Err ValueError
  ∧ open_report echo_student "6 health tue.csv" rows_morning = Ok meeting_morning
  ∧ process_dir echo_student (MeetingSet_init None) dir_bad_then_good
    = Err ValueError
  ∧ ¬ is_Ok (process_dir echo_student (MeetingSet_init None) dir_bad_then_good).
Proof.
  repeat (split; [reflexivity|]). intros [self H]. discriminate.
Qed.

(** C7, amended. An exception raised while one report is read is not
    caught: it ends the whole run at that file. Whatever the files listed
    after it hold, [process] returns the exception, and there is no list of
    skipped files. *)
Theorem C7_parse_error_aborts_run
    (match_student : Z → string → result (option string))
    (self self1 : MeetingSet) (dir1 dir2 : list (string * list (list string)))
    (name : string) (rows : list (list string)) (e : exn) :
  process_dir match_student self dir1 = Ok self1 →
  is_report_name name = true →
  open_report match_student name rows = Err e →
  process_dir match_student self (dir1 ++ (name, rows) :: dir2) = Err e.
Proof.
  intros H1 Hname Herr. unfold process_dir in *.
  rewrite iter_csvs_app, process_app, H1. simpl.
  by rewrite Hname, Herr.
Qed.

Lemma C7_witness :
  process_dir echo_student (MeetingSet_init None)
    ([] ++ ("6 health mon.csv", rows_no_time) :: [("6 health tue.csv", rows_morning)])
  = Err ValueError.
Proof.
  apply (C7_parse_error_aborts_run echo_student (MeetingSet_init None)
           (MeetingSet_init None) []); reflexivity.
Defined.






(** C10. A report whose start time has the hour 12 with a "pm" marker
    never gives a [Meeting]: 12 is added to the hour whenever "pm" occurs,
    and [datetime] refuses the hour 24. *)
Theorem C10_noon_pm_raises (match_student : Z → string → result (option string))
    (name : string) (rows : list (list string)) (row1 : list string)
    (time_str : string) (month day year minute : Z) (rest : list Z) :
  rows !! 1%nat = Some row1 →
  row1 !! 2%nat = Some time_str →
  time_fields time_str = month :: day :: year :: 12 :: minute :: rest →
  str_contains "pm" (lower time_str) = true →
  raises (open_report match_student name rows).
Proof.
  intros Hrow1 Htime Hfields Hpm. unfold open_report.
  apply bind_raises; intros c _.
  apply bind_raises; intros grade _.
  apply bind_raises; intros row2 _.
  destruct row2; [|by eexists].
  unfold py_index. rewrite Hrow1. simpl.
  apply bind_raises; intros d _.
  apply bind_raises; intros duration_ _.
  apply bind_raises; intros topic_ _.
  rewrite Htime. simpl. rewrite Hfields, Hpm.
  rewrite make_datetime_late_hour by lia. by eexists.
Qed.

Lemma C10_witness :
  open_report echo_student "6 health mon.csv" rows_noon = Err ValueError
  ∧ raises (open_report echo_student "6 health mon.csv" rows_noon).
Proof.
  split; [reflexivity|].
  eapply (C10_noon_pm_raises echo_student "6 health mon.csv" rows_noon);
    reflexivity.
Defined.

(** * Further properties of the grouping *)

Lemma run_cons (self : MeetingSet) (m : Meeting) (ms : list Meeting) :
  run self (m :: ms) = self1 ← process_meeting self m; run self1 ms.
Proof. reflexivity. Qed.

Lemma concat_insert_snoc {A} (cs : list (list A)) (i : nat) (g : list A)
    (x : A) :
  cs !! i = Some g → concat (<[i := g ++ [x]]> cs) ≡ₚ concat cs ++ [x].
Proof.
  revert i. induction cs as [|c cs IH]; intros [|i] Hi; try done; simpl in *.
  - injection Hi as ->. rewrite <- !(assoc_L (++)).
    apply Permutation_app_head, Permutation_app_comm.
  - rewrite (IH i Hi). by rewrite (assoc_L (++)).
Qed.

(** One iteration adds the record to the groupings and moves nothing
    else. *)
Lemma process_meeting_concat (gm : option (gmap string string))
    (self self' : MeetingSet) (R : Meeting) :
  wf gm self → process_meeting self R = Ok self' →
  concat (clusters self') ≡ₚ concat (clusters self) ++ [R].
Proof.
  intros Hwf Hstep.
  destruct (process_meeting_cases gm self R Hwf)
    as [[_ H]|(i & l & g & Hi & Hl & _ & _ & H)];
    rewrite H in Hstep; injection Hstep as <-.
  - rewrite (clusters_new_group gm) by done.
    by rewrite concat_app.
  - rewrite (clusters_after_join gm self i l g R) by done.
    apply concat_insert_snoc. by apply clusters_lookup with l.
Qed.

Lemma run_concat (gm : option (gmap string string)) (ms : list Meeting)
    (self self' : MeetingSet) :
  wf gm self → run self ms = Ok self' →
  concat (clusters self') ≡ₚ concat (clusters self) ++ ms.
Proof.
  revert self. induction ms as [|m ms IH]; intros self Hwf Hrun.
  - injection Hrun as <-. by rewrite app_nil_r.
  - rewrite run_cons in Hrun.
    destruct (process_meeting_wf gm self m Hwf) as (self1 & Hstep & Hwf1).
    rewrite Hstep in Hrun. simpl in Hrun.
    rewrite (IH self1 Hwf1 Hrun), (process_meeting_concat gm self self1 m) by done.
    by rewrite <- (assoc_L (++)).
Qed.

(** X1. The groupings partition the records of a run: put end to end they
    are a permutation of the records processed, so every record is in one
    grouping and none is lost or repeated. *)
Theorem X1_clusters_partition_the_records (gm : option (gmap string string))
    (ms : list Meeting) (self : MeetingSet) :
  run (MeetingSet_init gm) ms = Ok self →
  concat (clusters self) ≡ₚ ms.
Proof.
  intros Hrun. by apply (run_concat gm ms _ self (wf_init gm)) in Hrun.
Qed.

Lemma X1_witness :
  concat (clusters tagged_state) ≡ₚ [rec_abc; rec_abcd].
Proof.
  apply (X1_clusters_partition_the_records (Some tue_label)). reflexivity.
Defined.

Lemma process_meeting_sublists (gm : option (gmap string string))
    (self self' : MeetingSet) (R : Meeting) (pre : list Meeting) :
  wf gm self → process_meeting self R = Ok self' →
  Forall (λ g, g ≠ [] ∧ g `sublist_of` pre) (clusters self) →
  Forall (λ g, g ≠ [] ∧ g `sublist_of` pre ++ [R]) (clusters self').
Proof.
  intros Hwf Hstep Hall.
  assert (Forall (λ g, g ≠ [] ∧ g `sublist_of` pre ++ [R]) (clusters self))
    as Hall'.
  { eapply Forall_impl; [done|]. intros g [Hne Hsub]. split; [done|].
    by apply sublist_inserts_r. }
  destruct (process_meeting_cases gm self R Hwf)
    as [[_ H]|(i & l & g & Hi & Hl & _ & _ & H)];
    rewrite H in Hstep; injection Hstep as <-.
  - rewrite (clusters_new_group gm) by done.
    apply Forall_app. split; [done|]. apply Forall_singleton.
    split; [done|]. by apply sublist_inserts_l.
  - rewrite (clusters_after_join gm self i l g R) by done.
    apply Forall_insert; [done|].
    pose proof (clusters_lookup self i l g Hi Hl) as Hci.
    pose proof (Forall_lookup_1 _ _ _ _ Hall Hci) as [Hne Hsub].
    split; [by destruct g|]. by apply sublist_app.
Qed.

Lemma run_sublists (gm : option (gmap string string)) (ms pre : list Meeting)
    (self self' : MeetingSet) :
  wf gm self → run self ms = Ok self' →
  Forall (λ g, g ≠ [] ∧ g `sublist_of` pre) (clusters self) →
  Forall (λ g, g ≠ [] ∧ g `sublist_of` pre ++ ms) (clusters self').
Proof.
  revert self pre. induction ms as [|m ms IH]; intros self pre Hwf Hrun Hall.
  - injection Hrun as <-. by rewrite app_nil_r.
  - rewrite run_cons in Hrun.
    destruct (process_meeting_wf gm self m Hwf) as (self1 & Hstep & Hwf1).
    rewrite Hstep in Hrun. simpl in Hrun.
    replace (pre ++ m :: ms) with ((pre ++ [m]) ++ ms)
      by (by rewrite <- (assoc_L (++))).
    apply (IH self1 _ Hwf1 Hrun).
    by apply (process_meeting_sublists gm self).
Qed.

(** X2. Every grouping of a run is non-empty and lists its records in the
    order in which they arrived (it is a sublist of the input), and there
    are at most as many groupings as records. *)
Theorem X2_clusters_keep_arrival_order (gm : option (gmap string string))
    (ms : list Meeting) (self : MeetingSet) :
  run (MeetingSet_init gm) ms = Ok self →
  Forall (λ g, g ≠ [] ∧ g `sublist_of` ms) (clusters self)
  ∧ (length (clusters self) ≤ length ms)%nat.
Proof.
  intros Hrun.
  assert (Forall (λ g, g ≠ [] ∧ g `sublist_of` ms) (clusters self)) as Hall.
  { apply (run_sublists gm ms [] _ self (wf_init gm) Hrun). constructor. }
  split; [done|].
  assert (concat (clusters self) ≡ₚ ms) as Hperm.
  { by apply (run_concat gm ms _ self (wf_init gm)) in Hrun. }
  rewrite <- (Permutation_length Hperm). clear Hrun Hperm. induction Hall as [|g cs [Hne _] _ IH]; [done|].
  simpl. rewrite length_app. destruct g; [done|]. simpl. lia.
Qed.

Lemma X2_witness :
  Forall (λ g, g ≠ [] ∧ g `sublist_of` [rec_abc; rec_abcd])
    (clusters tagged_state)
  ∧ (length (clusters tagged_state) ≤ length [rec_abc; rec_abcd])%nat.
Proof.
  apply (X2_clusters_keep_arrival_order (Some tue_label)). reflexivity.
Defined.

Lemma size_union_intersection (X Y : gset string) :
  (size (X ∪ Y) + size (X ∩ Y) = size X + size Y)%nat.
Proof.
  rewrite size_union_alt, size_difference_alt.
  assert (size (Y ∩ X) ≤ size Y)%nat.
  { apply subseteq_size. apply intersection_subseteq_l. }
  rewrite (comm_L (∩) X Y). lia.
Qed.

Lemma union_test_shared (P R : Meeting) :
  union_test (3 # 4) P R = true
  ↔ (total_size P R < 4 * size (name_set P ∩ name_set R))%nat.
Proof.
  rewrite union_test_accepts, accepts_Z. unfold union_size, total_size.
  pose proof (size_union_intersection (name_set P) (name_set R)).
  simpl. lia.
Qed.

(** X3. At the ratio 0.75 the test [total * 0.75 > union] holds exactly
    when the attendees the two records share are more than a quarter of
    [total], the sum of the two attendances. *)
Theorem X3_test_counts_shared_attendees (P R : Meeting) :
  union_test (3 # 4) P R = true
  ↔ (total_size P R < 4 * size (name_set P ∩ name_set R))%nat.
Proof. apply union_test_shared. Qed.

(** X4. The test does not depend on which of the two records is the
    representative and which the newcomer. *)
Theorem X4_test_is_symmetric (ratio : Q) (P R : Meeting) :
  union_test ratio P R = union_test ratio R P.
Proof.
  unfold union_test, union_size, total_size.
  by rewrite (comm_L (∪) (name_set P)), (Nat.add_comm (size (name_set P))).
Qed.

Lemma run_elem_of (gm : option (gmap string string)) (ms : list Meeting)
    (self : MeetingSet) (l : nat) (g : list Meeting) (m : Meeting) :
  run (MeetingSet_init gm) ms = Ok self →
  l ∈ groups self → heap self !! l = Some g → m ∈ g → m ∈ ms.
Proof.
  intros Hrun Hl Hg Hm.
  assert (concat (clusters self) ≡ₚ ms) as Hperm.
  { by apply (run_concat gm ms _ self (wf_init gm)) in Hrun. }
  rewrite <- Hperm. apply list_elem_of_lookup_1 in Hl as [i Hi].
  apply list_elem_of_In, in_concat. exists g.
  split; apply list_elem_of_In; [|done].
  apply list_elem_of_lookup_2 with i. by apply clusters_lookup with l.
Qed.

(** X5. A record that shares no attendee with any record processed before
    it is never put in an existing grouping: it starts a new one. *)
Theorem X5_stranger_starts_new_cluster (gm : option (gmap string string))
    (ms : list Meeting) (self : MeetingSet) (R : Meeting) :
  run (MeetingSet_init gm) ms = Ok self →
  (∀ m, m ∈ ms → name_set m ## name_set R) →
  process_meeting self R = Ok (new_group self R)
  ∧ clusters (new_group self R) = clusters self ++ [[R]].
Proof.
  intros Hrun Hdisj. pose proof (run_init_wf _ _ _ Hrun) as Hwf.
  split; [|by eapply clusters_new_group].
  destruct (process_meeting_cases gm self R Hwf)
    as [[_ H]|(i & l & g & Hi & Hl & Hacc & _)]; [done|].
  exfalso. destruct Hacc as (g' & P & Hg' & HP & Hacc).
  rewrite (wf_ratio _ _ Hwf) in Hacc.
  apply union_test_accepts, union_test_shared in Hacc.
  assert (P ∈ ms) as HPin.
  { apply (run_elem_of gm ms self l g' P Hrun); [|done|].
    - by eapply list_elem_of_lookup_2.
    - destruct g' as [|m g']; [done|]. injection HP as <-.
      apply first_largest_elem.
      by destruct (py_max_first_largest m g') as (? & [= <-] & ?). }
  apply Hdisj, disjoint_intersection_L in HPin.
  rewrite HPin, size_empty in Hacc. lia.
Qed.

Lemma X5_witness :
  process_meeting (state_of [[rec_abc]] [0%nat]) rec_xyz
  = Ok (new_group (state_of [[rec_abc]] [0%nat]) rec_xyz)
  ∧ clusters (new_group (state_of [[rec_abc]] [0%nat]) rec_xyz)
    = clusters (state_of [[rec_abc]] [0%nat]) ++ [[rec_xyz]].
Proof.
  apply (X5_stranger_starts_new_cluster None [rec_abc]).
  - reflexivity.
  - intros m Hm. apply list_elem_of_singleton in Hm. subst m.
    apply disjoint_intersection_L. reflexivity.
Defined.

(** X6. Appending a record to a grouping changes its representative only
    when the new record has strictly more attendees; the attendance of the
    representative is then the larger of the two, so it never drops. *)
Theorem X6_representative_after_append (g : list Meeting) (P R : Meeting) :
  py_max g = Ok P →
  ∃ P', py_max (g ++ [R]) = Ok P'
    ∧ length (attendees P')
      = Nat.max (length (attendees P)) (length (attendees R))
    ∧ (P' = P
       ∨ (P' = R ∧ (length (attendees P) < length (attendees R))%nat)).
Proof.
  intros HP. rewrite (py_max_snoc g P R HP).
  destruct (Meeting_gt R P) eqn:Hgt; eexists; (split; [done|]).
  - apply Meeting_gt_spec in Hgt. split; [lia|]. right. by split.
  - assert (¬ (length (attendees P) < length (attendees R))%nat) as Hn.
    { intros H. apply Meeting_gt_spec in H. congruence. }
    split; [lia|]. by left.
Qed.

Lemma X6_witness :
  ∃ P', py_max ([rec_abc] ++ [rec_abcd]) = Ok P'
    ∧ length (attendees P')
      = Nat.max (length (attendees rec_abc)) (length (attendees rec_abcd))
    ∧ (P' = rec_abc
       ∨ (P' = rec_abcd
          ∧ (length (attendees rec_abc) < length (attendees rec_abcd))%nat)).
Proof. apply (X6_representative_after_append [rec_abc]). reflexivity. Defined.

(** ** [fill_group_dict] on any state *)

Lemma fill_loop_no_dict (h : list (list Meeting))
    (gm : option (gmap string string)) (gs : list nat)
    (gd' : option (gmap string nat)) :
  fill_loop h gm gs None = Ok gd' → gd' = None.
Proof.
  induction gs as [|l gs IH]; cbn [fill_loop]; [by intros [= <-]|].
  destruct (h !! l) as [[|m g]|]; [exact IH| |done].
  destruct gm as [labels|]; [|done].
  destruct (first_label labels (m :: g)); [done|exact IH].
Qed.

Lemma fill_loop_no_map (h : list (list Meeting)) (gs : list nat)
    (gd gd' : option (gmap string nat)) :
  fill_loop h None gs gd = Ok gd' → gd' = gd.
Proof.
  induction gs as [|l gs IH]; cbn [fill_loop]; [by intros [= <-]|].
  destruct (h !! l) as [[|m g]|]; [exact IH|done|done].
Qed.

Lemma fill_loop_Some (h : list (list Meeting)) (labels : gmap string string)
    (gs : list nat) (d : gmap string nat) (gd' : option (gmap string nat)) :
  fill_loop h (Some labels) gs (Some d) = Ok gd' →
  gd' = Some (foldl (resolve_step h labels) d gs)
  ∧ ∀ d', fill_loop h (Some labels) gs (Some d')
          = Ok (Some (foldl (resolve_step h labels) d' gs)).
Proof.
  revert d. induction gs as [|l gs IH]; intros d; cbn [fill_loop foldl].
  - by intros [= <-].
  - destruct (h !! l) as [[|m g]|] eqn:Hl; [| |done].
    + assert (∀ d0, resolve_step h labels d0 l = d0) as Hstep.
      { intros d0. unfold resolve_step, label_at. by rewrite Hl. }
      intros H. destruct (IH d H) as [-> Hall]. rewrite Hstep.
      split; [done|]. intros d'. rewrite Hstep. apply Hall.
    + destruct (first_label labels (m :: g)) as [label|] eqn:Hfl.
      * assert (∀ d0, resolve_step h labels d0 l = <[label := l]> d0) as Hstep.
        { intros d0. unfold resolve_step, label_at. rewrite Hl.
          cbn [mbind option_bind]. by rewrite Hfl. }
        intros H. destruct (IH _ H) as [-> Hall]. rewrite Hstep.
        split; [done|]. intros d'. rewrite Hstep. apply Hall.
      * assert (∀ d0, resolve_step h labels d0 l = d0) as Hstep.
        { intros d0. unfold resolve_step, label_at. rewrite Hl.
          cbn [mbind option_bind]. by rewrite Hfl. }
        intros H. destruct (IH _ H) as [-> Hall]. rewrite Hstep.
        split; [done|]. intros d'. rewrite Hstep. apply Hall.
Qed.

Lemma last_with_label (h : list (list Meeting)) (labels : gmap string string)
    (label : string) (gs : list nat) :
  (∀ l, l ∈ gs → label_at h labels l ≠ Some label)
  ∨ ∃ i l, gs !! i = Some l ∧ label_at h labels l = Some label
      ∧ ∀ j l', (i < j)%nat → gs !! j = Some l' →
          label_at h labels l' ≠ Some label.
Proof.
  induction gs as [|l0 gs IH].
  - left. intros l Hl. by apply elem_of_nil in Hl.
  - destruct IH as [Hnone|(i & l & Hi & Hlab & Hlater)].
    + destruct (decide (label_at h labels l0 = Some label)) as [Hyes|Hno].
      * right. exists 0%nat, l0. split; [done|]. split; [done|].
        intros [|j] l' Hj Hl'; [lia|]. simpl in Hl'.
        apply Hnone. by eapply list_elem_of_lookup_2.
      * left. intros l Hl. apply elem_of_cons in Hl as [->|Hl]; auto.
    + right. exists (S i), l. split; [done|]. split; [done|].
      intros [|j] l' Hj Hl'; [lia|]. simpl in Hl'.
      apply (Hlater j); [lia|done].
Qed.

Lemma resolve_twice (h : list (list Meeting)) (labels : gmap string string)
    (gs : list nat) (d : gmap string nat) :
  foldl (resolve_step h labels) (foldl (resolve_step h labels) d gs) gs
  = foldl (resolve_step h labels) d gs.
Proof.
  apply map_eq. intros label.
  destruct (last_with_label h labels label gs)
    as [Hnone|(i & l & Hi & Hlab & Hlater)].
  - by rewrite resolve_untouched.
  - by rewrite !(resolve_last h labels gs _ label i l).
Qed.

(** X7. [fill_group_dict] is idempotent: when it returns, running it again
    returns the same state, label dict included. *)
Theorem X7_fill_group_dict_idempotent (self self' : MeetingSet) :
  fill_group_dict self = Ok self' → fill_group_dict self' = Ok self'.
Proof.
  unfold fill_group_dict.
  destruct (fill_loop (heap self) (group_map self) (groups self)
              (group_dict self)) as [gd'|e] eqn:Hfill; [|done].
  simpl. intros [= <-]. simpl.
  assert (fill_loop (heap self) (group_map self) (groups self) gd' = Ok gd')
    as ->; [|done].
  destruct (group_map self) as [labels|].
  - destruct (group_dict self) as [d|].
    + destruct (fill_loop_Some _ _ _ _ _ Hfill) as [-> Hall].
      by rewrite Hall, resolve_twice.
    + pose proof (fill_loop_no_dict _ _ _ _ Hfill) as ->. exact Hfill.
  - pose proof (fill_loop_no_map _ _ _ _ Hfill) as ->. exact Hfill.
Qed.

Lemma X7_witness :
  fill_group_dict
    {| heap := heap tagged_state; group_map := group_map tagged_state;
       group_dict := Some {[ "Health; Mrs. Smith" := 0%nat ]};
       groups := groups tagged_state;
       TOTAL_TO_UNION_RATIO_ADJUSTMENT := (3 # 4)%Q |}
  = Ok {| heap := heap tagged_state; group_map := group_map tagged_state;
          group_dict := Some {[ "Health; Mrs. Smith" := 0%nat ]};
          groups := groups tagged_state;
          TOTAL_TO_UNION_RATIO_ADJUSTMENT := (3 # 4)%Q |}.
Proof.
  apply (X7_fill_group_dict_idempotent tagged_state). reflexivity.
Defined.

Lemma first_label_empty_map (g : list Meeting) : first_label ∅ g = None.
Proof. induction g as [|m g IH]; [done|]. simpl. by rewrite lookup_empty. Qed.

Lemma fill_loop_empty_map (h : list (list Meeting)) (gs : list nat)
    (gd : option (gmap string nat)) :
  (∀ l, l ∈ gs → ∃ m g, h !! l = Some (m :: g)) →
  fill_loop h (Some ∅) gs gd = Ok gd.
Proof.
  induction gs as [|l gs IH]; intros Hgs; cbn [fill_loop]; [done|].
  destruct (Hgs l) as (m & g & ->); [by left|].
  rewrite first_label_empty_map. apply IH. intros l' Hl'. apply Hgs. by right.
Qed.

(** X8. Without a label map [fill_group_dict] cannot be used once a record
    has been processed: for [group_map = None] it raises [AttributeError]
    at the first grouping; for an empty map it returns with the state as
    it was, and [group_dict] still unset. *)
Theorem X8_fill_group_dict_without_map (ms : list Meeting) :
  ms ≠ [] →
  (∃ self, run (MeetingSet_init None) ms = Ok self
     ∧ fill_group_dict self = Err AttributeError)
  ∧ (∃ self, run (MeetingSet_init (Some ∅)) ms = Ok self
       ∧ group_dict self = None
       ∧ fill_group_dict self = Ok self).
Proof.
  intros Hms. split.
  - destruct (run_wf None ms _ (wf_init None)) as (self & Hrun & Hwf).
    exists self. split; [done|].
    assert (concat (clusters self) ≡ₚ ms) as Hperm.
    { by apply (run_concat None ms _ self (wf_init None)) in Hrun. }
    unfold fill_group_dict. rewrite (wf_group_map _ _ Hwf).
    destruct (groups self) as [|l gs] eqn:Hgs.
    { exfalso. unfold clusters in Hperm. rewrite Hgs in Hperm.
      apply Permutation_nil_l in Hperm. by apply Hms. }
    destruct (wf_groups _ _ Hwf l) as (m & g & Hl).
    { rewrite Hgs. by left. }
    cbn [fill_loop]. by rewrite Hl.
  - destruct (run_wf (Some ∅) ms _ (wf_init (Some ∅))) as (self & Hrun & Hwf).
    exists self. split; [done|].
    assert (group_dict self = None) as Hgd.
    { destruct (group_dict self) as [gd|] eqn:E; [|done].
      assert (is_Some (Some gd)) as Hsome by eauto.
      rewrite <- E in Hsome. by apply (wf_dict _ _ Hwf) in Hsome. }
    split; [done|]. unfold fill_group_dict.
    rewrite (wf_group_map _ _ Hwf), fill_loop_empty_map by apply Hwf.
    simpl. rewrite <- (wf_group_map _ _ Hwf). by destruct self.
Qed.

Lemma X8_witness :
  (∃ self, run (MeetingSet_init None) [rec_abc] = Ok self
     ∧ fill_group_dict self = Err AttributeError)
  ∧ (∃ self, run (MeetingSet_init (Some ∅)) [rec_abc] = Ok self
       ∧ group_dict self = None
       ∧ fill_group_dict self = Ok self).
Proof. apply (X8_fill_group_dict_without_map [rec_abc]). discriminate. Defined.

(** * Further properties of the thresholds *)

(** X9. [validate_or_generate_thresholds] is idempotent: the thresholds it
    leaves in [self.thresholds], the defaults included, pass it again
    unchanged. *)
Theorem X9_validated_thresholds_stay_valid
    (given : option (gmap string pyval)) (t : gmap string pyval) :
  validate_or_generate_thresholds given = Ok t →
  validate_or_generate_thresholds (Some t) = Ok t.
Proof.
  destruct given as [t0|]; [|by intros [= <-]].
  destruct (decide (t0 = ∅)) as [->|Hne]; [by intros [= <-]|].
  intros H. destruct (validate_sound t0 t Hne H) as (-> & Hinc & Hall).
  by apply validate_accepts.
Qed.

Lemma X9_witness :
  validate_or_generate_thresholds (Some (thresholds_of 0 15 30))
  = Ok (thresholds_of 0 15 30).
Proof. apply (X9_validated_thresholds_stay_valid None). reflexivity. Defined.

(** * Further properties of the reports *)

Lemma substring_whole (s : string) : String.substring 0 (String.length s) s = s.
Proof. induction s as [|c s IH]; [done|]. simpl. by rewrite IH. Qed.

Lemma substring_split (s : string) (n : nat) :
  (n ≤ String.length s)%nat →
  s = String.substring 0 n s +:+ String.substring n (String.length s - n) s.
Proof.
  revert n. induction s as [|c s IH]; intros [|n] Hn; simpl in *; try lia.
  - done.
  - by rewrite substring_whole.
  - change (String c s = String c (String.substring 0 n s
             +:+ String.substring n (String.length s - n) s)).
    f_equal. apply IH. lia.
Qed.

Lemma substring_length_le (s : string) (n m : nat) :
  (String.length (String.substring n m s) ≤ String.length s - n)%nat.
Proof.
  revert n m. induction s as [|c s IH]; intros [|n] [|m]; simpl; try lia.
  - specialize (IH 0%nat m). lia.
  - apply IH.
  - apply IH.
Qed.

Lemma substring_app_skip (p t : string) (m : nat) :
  String.substring (String.length p) m (p +:+ t) = String.substring 0 m t.
Proof. induction p as [|c p IH]; [done|]. simpl. apply IH. Qed.

Lemma append_length (p t : string) :
  String.length (p +:+ t) = (String.length p + String.length t)%nat.
Proof. induction p as [|c p IH]; [done|]. simpl. by rewrite IH. Qed.

Lemma last4_csv (name : string) :
  last4 name = ".csv" ↔ ends_with_csv name.
Proof.
  unfold last4, ends_with_csv. split.
  - intros H.
    pose proof (substring_length_le name (String.length name - 4) 4) as Hle.
    rewrite H in Hle. simpl in Hle.
    exists (String.substring 0 (String.length name - 4) name).
    assert (String.length name - 4 ≤ String.length name)%nat as Hn by lia.
    pose proof (substring_split name (String.length name - 4) Hn) as Hs.
    replace (String.length name - (String.length name - 4))%nat
      with 4%nat in Hs by lia.
    by rewrite H in Hs.
  - intros [stem ->]. rewrite append_length. simpl.
    replace (String.length stem + 4 - 4)%nat with (String.length stem) by lia.
    by rewrite substring_app_skip.
Qed.

(** X10. [iter_csvs] takes a file exactly when its name ends in [.csv] and
    starts with neither [~] nor a dot. *)
Theorem X10_report_names (name : string) :
  is_report_name name = true
  ↔ ends_with_csv name
    ∧ ¬ (∃ rest, name = String "~" rest)
    ∧ ¬ (∃ rest, name = String "." rest).
Proof.
  unfold is_report_name. rewrite andb_true_iff, String.eqb_eq, last4_csv.
  split.
  - intros [Hcsv Hfirst]. split; [done|].
    destruct name as [|c rest]; [done|].
    apply negb_true_iff, orb_false_iff in Hfirst as [H1 H2].
    apply Ascii.eqb_neq in H1, H2.
    split; intros [rest' [= -> _]]; congruence.
  - intros (Hcsv & H1 & H2). split; [done|].
    destruct name as [|c rest].
    + by destruct Hcsv as [[|? ?] ?].
    + apply negb_true_iff, orb_false_iff.
      split; apply Ascii.eqb_neq; intros ->; [apply H1|apply H2]; by eexists.
Qed.

(** X11. A file that [iter_csvs] does not take is never opened: whatever
    it holds, [process] gives the result it gives without that file. *)
Theorem X11_other_files_are_not_read
    (match_student : Z → string → result (option string))
    (self : MeetingSet) (dir1 dir2 : list (string * list (list string)))
    (name : string) (rows : list (list string)) :
  is_report_name name = false →
  process_dir match_student self (dir1 ++ (name, rows) :: dir2)
  = process_dir match_student self (dir1 ++ dir2).
Proof.
  intros Hname. unfold process_dir. rewrite !iter_csvs_app. simpl.
  by rewrite Hname.
Qed.

Lemma X11_witness :
  process_dir echo_student (MeetingSet_init None)
    ([] ++ (".DS_Store", [["not"; "a"; "report"]])
        :: [("6 health tue.csv", rows_morning)])
  = process_dir echo_student (MeetingSet_init None)
      ([] ++ [("6 health tue.csv", rows_morning)]).
Proof.
  apply (X11_other_files_are_not_read echo_student). reflexivity.
Defined.

Lemma bind_Ok {A B} (r : result A) (f : A → result B) (b : B) :
  mbind f r = Ok b → ∃ a, r = Ok a ∧ f a = Ok b.
Proof. destruct r as [a|e]; [|done]. intros H. by exists a. Qed.

Lemma py_int_char (c : ascii) :
  py_int (String c EmptyString)
  = if is_digit c then Ok (digit_value c) else Err ValueError.
Proof. destruct c as [[] [] [] [] [] [] [] []]; reflexivity. Qed.

Lemma digit_value_range (c : ascii) :
  is_digit c = true → 0 <= digit_value c <= 9.
Proof.
  unfold is_digit, digit_value. intros H.
  apply andb_true_iff in H as [H1 H2].
  apply Nat.leb_le in H1, H2. lia.
Qed.

Lemma make_datetime_Ok (year month day hour minute : Z) (dt : datetime) :
  make_datetime year month day hour minute = Ok dt →
  dt = {| dt_year := year; dt_month := month; dt_day := day;
          dt_hour := hour; dt_minute := minute |}
  ∧ valid_datetime dt.
Proof.
  unfold make_datetime. destruct (_ && _) eqn:E; [|done]. intros [= <-].
  split; [done|]. unfold valid_datetime. simpl.
  repeat (apply andb_true_iff in E as [E ?]). lia.
Qed.

Lemma digits_loop_nonneg (s : string) (acc : Z) (u : bool) (n : Z) :
  0 <= acc → digits_loop acc u s = Some n → 0 <= n.
Proof.
  revert acc u. induction s as [|c s IH]; intros acc u Hacc; simpl.
  - destruct u; [done|]. by intros [= <-].
  - destruct (is_digit c) eqn:Hc.
    + apply IH. pose proof (digit_value_range c Hc). lia.
    + destruct (Ascii.eqb c "_"); [|done]. destruct u; [done|]. by apply IH.
Qed.

Lemma parse_digits_nonneg (s : string) (n : Z) :
  parse_digits s = Some n → 0 <= n.
Proof.
  destruct s as [|c s]; [done|]. simpl.
  destruct (is_digit c) eqn:Hc; [|done].
  apply digits_loop_nonneg. by apply digit_value_range.
Qed.

Lemma time_fields_nonneg (time_str : string) :
  Forall (λ z, 0 <= z) (time_fields time_str).
Proof.
  unfold time_fields. apply Forall_forall. intros z Hz.
  apply list_elem_of_omap in Hz as (i & _ & Hi).
  destruct (isdigit i); [|done]. by apply parse_digits_nonneg in Hi.
Qed.

(** What a successful [Meeting(path)] has gone through. *)
Lemma open_report_Ok (match_student : Z → string → result (option string))
    (name : string) (rows : list (list string)) (m : Meeting) :
  open_report match_student name rows = Ok m →
  ∃ c rest row1 d time_str month day year hour minute more,
    name = String c rest ∧ is_digit c = true
    ∧ rows !! 2%nat = Some [] ∧ rows !! 1%nat = Some row1
    ∧ row1 !! 5%nat = Some d ∧ py_int d = Ok (duration m)
    ∧ row1 !! 1%nat = Some (topic m) ∧ row1 !! 2%nat = Some time_str
    ∧ time_fields time_str = month :: day :: year :: hour :: minute :: more
    ∧ make_datetime year month day
        (if str_contains "pm" (lower time_str) then hour + 12 else hour)
        minute = Ok (meeting_datetime m)
    ∧ read_attendees match_student (grade_level m) (drop 4 rows)
      = Ok (attendees m)
    ∧ grade_level m = digit_value c ∧ path_name m = name.
Proof.
  unfold open_report, py_index, first_char. intros H.
  destruct name as [|c rest]; [done|]. simpl in H.
  rewrite py_int_char in H. destruct (is_digit c) eqn:Hc; [|done].
  simpl in H. destruct (rows !! 2%nat) as [[|? ?]|] eqn:H2; try done.
  simpl in H. destruct (rows !! 1%nat) as [row1|] eqn:H1; [|done].
  simpl in H. destruct (row1 !! 5%nat) as [d|] eqn:H5; [|done].
  simpl in H. destruct (py_int d) as [dur|] eqn:Hd; [|done].
  simpl in H. destruct (row1 !! 1%nat) as [top|] eqn:Ht; [|done].
  simpl in H. destruct (row1 !! 2%nat) as [time_str|] eqn:Hts; [|done].
  simpl in H.
  destruct (time_fields time_str)
    as [|month [|day [|year [|hour [|minute more]]]]] eqn:Hf; try done.
  apply bind_Ok in H as (dt & Hdt & H).
  apply bind_Ok in H as (atts & Hatts & H). injection H as <-. simpl.
  by exists c, rest, row1, d, time_str, month, day, year, hour, minute, more.
Qed.

Lemma open_report_refuses_name
    (match_student : Z → string → result (option string))
    (c : ascii) (rest : string) (rows : list (list string)) :
  is_digit c = false →
  open_report match_student (String c rest) rows = Err NotImplementedError.
Proof.
  intros Hc. unfold open_report. simpl. by rewrite py_int_char, Hc.
Qed.

(** X12. A file whose name does not begin with a digit is refused with
    [NotImplementedError] before anything of it is read. *)
Theorem X12_name_must_start_with_digit
    (match_student : Z → string → result (option string))
    (c : ascii) (rest : string) (rows : list (list string)) :
  is_digit c = false →
  open_report match_student (String c rest) rows = Err NotImplementedError.
Proof. apply open_report_refuses_name. Qed.

Lemma X12_witness :
  open_report echo_student "health 6.csv" rows_morning
  = Err NotImplementedError.
Proof. apply (X12_name_must_start_with_digit echo_student). reflexivity. Defined.

(** X13. A [Meeting] that is built carries the name of its file, a grade
    level from 0 to 9 that is the first character of that name, and a date
    and time that exist on the calendar. *)
Theorem X13_built_meeting_is_well_formed
    (match_student : Z → string → result (option string))
    (name : string) (rows : list (list string)) (m : Meeting) :
  open_report match_student name rows = Ok m →
  path_name m = name
  ∧ (∃ c rest, name = String c rest ∧ is_digit c = true
       ∧ grade_level m = digit_value c)
  ∧ 0 <= grade_level m <= 9
  ∧ valid_datetime (meeting_datetime m).
Proof.
  intros H. apply open_report_Ok in H
    as (c & rest & row1 & d & ts & mo & da & ye & ho & mi & more & Hname & Hc
        & _ & _ & _ & _ & _ & _ & _ & Hdt & _ & Hg & Hp).
  split; [done|]. split; [by exists c, rest|]. split.
  - rewrite Hg. by apply digit_value_range.
  - by apply make_datetime_Ok in Hdt as [_ ?].
Qed.

Lemma X13_witness :
  path_name meeting_morning = "6 health tue.csv"
  ∧ (∃ c rest, "6 health tue.csv" = String c rest ∧ is_digit c = true
       ∧ grade_level meeting_morning = digit_value c)
  ∧ 0 <= grade_level meeting_morning <= 9
  ∧ valid_datetime (meeting_datetime meeting_morning).
Proof.
  apply (X13_built_meeting_is_well_formed echo_student _ rows_morning).
  reflexivity.
Defined.

(** X14. The start time of a built [Meeting] is read from the numbers of
    the time string, month, day, year, hour and minute in that order; 12 is
    added to the hour when "pm" occurs in the string, in any case of the
    letters, and nothing else is adjusted: without "pm" the hour is kept,
    so an hour of 12 with "AM" stays 12, and with "pm" the hour read is at
    most 11. *)
Theorem X14_start_time_of_built_meeting
    (match_student : Z → string → result (option string))
    (name : string) (rows : list (list string)) (m : Meeting)
    (row1 : list string) (time_str : string) :
  open_report match_student name rows = Ok m →
  rows !! 1%nat = Some row1 → row1 !! 2%nat = Some time_str →
  ∃ month day year hour minute more,
    time_fields time_str = month :: day :: year :: hour :: minute :: more
    ∧ dt_month (meeting_datetime m) = month
    ∧ dt_day (meeting_datetime m) = day
    ∧ dt_year (meeting_datetime m) = year
    ∧ dt_minute (meeting_datetime m) = minute
    ∧ (if str_contains "pm" (lower time_str)
       then dt_hour (meeting_datetime m) = hour + 12 ∧ 0 <= hour <= 11
       else dt_hour (meeting_datetime m) = hour).
Proof.
  intros H Hrow1 Hts. apply open_report_Ok in H
    as (c & rest & row1' & d & ts & mo & da & ye & ho & mi & more & _ & _
        & _ & Hrow1' & _ & _ & _ & Hts' & Hf & Hdt & _).
  rewrite Hrow1 in Hrow1'. injection Hrow1' as <-.
  rewrite Hts in Hts'. injection Hts' as <-.
  exists mo, da, ye, ho, mi, more. split; [done|].
  apply make_datetime_Ok in Hdt as [Hdt Hvalid]. rewrite Hdt in *. simpl.
  repeat (split; [done|]).
  destruct (str_contains "pm" (lower time_str)); [|done].
  split; [done|]. destruct Hvalid as (_ & _ & _ & Hh & _). simpl in Hh.
  split; [|lia].
  assert (Forall (λ z, 0 <= z) (time_fields time_str)) as Hpos.
  { apply time_fields_nonneg. }
  rewrite Hf in Hpos. by do 4 (apply Forall_cons in Hpos as [? Hpos]).
Qed.

Lemma X14_witness :
  ∃ month day year hour minute more,
    time_fields "09/24/2020 10:13:00 AM"
    = month :: day :: year :: hour :: minute :: more
    ∧ dt_month (meeting_datetime meeting_morning) = month
    ∧ dt_day (meeting_datetime meeting_morning) = day
    ∧ dt_year (meeting_datetime meeting_morning) = year
    ∧ dt_minute (meeting_datetime meeting_morning) = minute
    ∧ (if str_contains "pm" (lower "09/24/2020 10:13:00 AM")
       then dt_hour (meeting_datetime meeting_morning) = hour + 12
            ∧ 0 <= hour <= 11
       else dt_hour (meeting_datetime meeting_morning) = hour).
Proof.
  eapply (X14_start_time_of_built_meeting echo_student
            "6 health tue.csv" rows_morning); reflexivity.
Defined.





Lemma read_attendees_short_row
    (match_student : Z → string → result (option string))
    (grade : Z) (rows : list (list string)) :
  Exists (λ row, (length row < 3)%nat) rows →
  raises (read_attendees match_student grade rows).
Proof.
  induction 1 as [row rows Hshort|row rows _ IH]; cbn [read_attendees].
  - unfold py_index. rewrite (lookup_ge_None_2 row 2%nat) by lia.
    by eexists.
  - apply bind_raises; intros _ _. apply bind_raises; intros nm _.
    apply bind_raises; intros st _. apply bind_raises; intros rest Hrest.
    destruct IH as [e He]. congruence.
Qed.

(** X16. An attendee row with fewer than three cells, a blank line for
    one, makes the whole report unreadable: [Meeting(path)] raises, although
    only the first cell of a row is used. *)
Theorem X16_short_attendee_row_raises
    (match_student : Z → string → result (option string))
    (name : string) (rows : list (list string)) :
  Exists (λ row, (length row < 3)%nat) (drop 4 rows) →
  raises (open_report match_student name rows).
Proof.
  intros Hshort.
  destruct (open_report match_student name rows) as [m|e] eqn:H;
    [|by exists e].
  apply open_report_Ok in H
    as (c & rest & row1 & d & ts & mo & da & ye & ho & mi & more & _ & _
        & _ & _ & _ & _ & _ & _ & _ & _ & Hatts & _).
  destruct (read_attendees_short_row match_student (grade_level m) _ Hshort)
    as [e He]. congruence.
Qed.

Lemma X16_witness :
  raises (open_report echo_student "6 health tue.csv"
            (rows_morning ++ [[]])).
Proof.
  apply (X16_short_attendee_row_raises echo_student).
  simpl. do 2 apply Exists_cons_tl. apply Exists_cons_hd. simpl. lia.
Defined.

(** * [Meeting.__eq__] *)

Lemma digit_char_inj (a b : Z) :
  0 <= a <= 9 → 0 <= b <= 9 → digit_char a = digit_char b → a = b.
Proof.
  intros Ha Hb H. apply (f_equal nat_of_ascii) in H. unfold digit_char in H.
  rewrite !nat_ascii_embedding in H by lia. lia.
Qed.

Lemma pad2_inj (a b : Z) :
  0 <= a < 100 → 0 <= b < 100 → pad2 a = pad2 b → a = b.
Proof.
  intros Ha Hb [= H1 H0].
  apply digit_char_inj in H1, H0;
    try (split; [apply Z.mod_pos_bound|apply Z.lt_succ_r, Z.mod_pos_bound]; lia).
  revert H1 H0. Z.div_mod_to_equations. lia.
Qed.

Lemma pad4_inj (a b : Z) :
  0 <= a < 10000 → 0 <= b < 10000 → pad4 a = pad4 b → a = b.
Proof.
  intros Ha Hb [= H3 H2 H1 H0].
  apply digit_char_inj in H3, H2, H1, H0;
    try (split; [apply Z.mod_pos_bound|apply Z.lt_succ_r, Z.mod_pos_bound]; lia).
  revert H3 H2 H1 H0. Z.div_mod_to_equations. lia.
Qed.

Lemma days_in_month_le (year month : Z) : days_in_month year month <= 31.
Proof. unfold days_in_month. repeat case_match; lia. Qed.

Lemma isoformat_inj (a b : datetime) :
  valid_datetime a → valid_datetime b → isoformat a = isoformat b → a = b.
Proof.
  intros (Hy & Hm & Hd & Hh & Hmi) (Hy' & Hm' & Hd' & Hh' & Hmi').
  pose proof (days_in_month_le (dt_year a) (dt_month a)) as Hda.
  pose proof (days_in_month_le (dt_year b) (dt_month b)) as Hdb.
  destruct a as [y mo d h mi], b as [y' mo' d' h' mi']. simpl in *.
  unfold isoformat. simpl.
  intros [= Y3 Y2 Y1 Y0 M1 M0 D1 D0 H1 H0 MI1 MI0].
  assert (pad4 y = pad4 y') as HY by (unfold pad4, pad2; congruence).
  assert (pad2 mo = pad2 mo') as HM by (unfold pad2; congruence).
  assert (pad2 d = pad2 d') as HD by (unfold pad2; congruence).
  assert (pad2 h = pad2 h') as HH by (unfold pad2; congruence).
  assert (pad2 mi = pad2 mi') as HMI by (unfold pad2; congruence).
  apply pad4_inj in HY; [|lia..].
  apply pad2_inj in HM, HD, HH, HMI; [|lia..].
  congruence.
Qed.

Lemma isoformat_length (dt : datetime) : String.length (isoformat dt) = 19%nat.
Proof. reflexivity. Qed.

Lemma append_inj_suffix (s1 s2 t1 t2 : string) :
  String.length t1 = String.length t2 →
  s1 +:+ t1 = s2 +:+ t2 → s1 = s2 ∧ t1 = t2.
Proof.
  intros Hlen. revert s2. induction s1 as [|c s1 IH]; intros [|c' s2] H.
  - done.
  - exfalso. change (t1 = String c' (s2 +:+ t2)) in H. subst t1.
    simpl in Hlen. rewrite append_length in Hlen. lia.
  - exfalso. change (String c (s1 +:+ t1) = t2) in H. subst t2.
    simpl in Hlen. rewrite append_length in Hlen. lia.
  - change (String c (s1 +:+ t1) = String c' (s2 +:+ t2)) in H.
    injection H as -> H. destruct (IH s2 H) as [-> ->]. done.
Qed.

(** X17. Two meetings are [==] exactly when they have the same topic and
    the same start minute: the file, the duration and the attendees play no
    part. *)
Theorem X17_meetings_equal_by_topic_and_time (a b : Meeting) :
  valid_datetime (meeting_datetime a) →
  valid_datetime (meeting_datetime b) →
  Meeting_eq a b = true
  ↔ topic a = topic b ∧ meeting_datetime a = meeting_datetime b.
Proof.
  intros Ha Hb. unfold Meeting_eq. rewrite String.eqb_eq. split.
  - intros H. apply append_inj_suffix in H as [Ht Hi].
    + split; [done|]. by apply isoformat_inj.
    + by rewrite !isoformat_length.
  - by intros [-> ->].
Qed.

Lemma X17_witness :
  Meeting_eq rec_abc rec_xyz = true
  ↔ topic rec_abc = topic rec_xyz
    ∧ meeting_datetime rec_abc = meeting_datetime rec_xyz.
Proof.
  apply X17_meetings_equal_by_topic_and_time;
    unfold valid_datetime; simpl; vm_compute; intuition discriminate.
Defined.

(** * [generate_group_map_from_topics] and [rename_csv_files] *)

(** When [generate_group_map_from_topics] is called although a
    [group_map] was given or [trust_topics] is false, it raises
    [TypeError], from the message it builds, and not the [Exception] it
    means to raise; nothing is read. *)
Lemma topics_precondition_gives_TypeError
    (match_student : Z → string → result (option string))
    (self : MeetingSet) (trust_topics : bool)
    (dir : list (string * list (list string))) :
  group_map_truthy (group_map self) = true ∨ trust_topics = false →
  generate_group_map_from_topics match_student self trust_topics dir
  = Err TypeError.
Proof.
  unfold generate_group_map_from_topics. intros [->| ->]; [done|].
  by rewrite andb_false_r.
Qed.

Lemma topics_loop_spec (match_student : Z → string → result (option string))
    (dir : list (string * list (list string))) (gm0 : gmap string string) :
  NoDup dir.*1 →
  (∀ name, name ∈ dir.*1 → gm0 !! name = None) →
  (∀ name rows, (name, rows) ∈ dir →
     is_Ok (open_report match_student name rows)) →
  ∃ gm, topics_loop match_student dir gm0 = Ok gm
    ∧ ∀ name t, gm !! name = Some t
        ↔ gm0 !! name = Some t
          ∨ ∃ rows m, (name, rows) ∈ dir
              ∧ open_report match_student name rows = Ok m ∧ topic m = t.
Proof.
  revert gm0. induction dir as [|[name rows] dir IH];
    intros gm0 Hnd Hfresh Hopen.
  - exists gm0. split; [done|]. intros name t. split; [by left|].
    intros [H|(rows & m & Hin & _)]; [done|]. by apply elem_of_nil in Hin.
  - apply NoDup_cons in Hnd as [Hnotin Hnd]. cbn [topics_loop].
    destruct (Hopen name rows) as [m Hm]; [by left|]. rewrite Hm. simpl.
    rewrite (Hfresh name) by (by left).
    destruct (IH (<[name := topic m]> gm0) Hnd) as (gm & Hgm & Hspec).
    + intros name' Hin'. rewrite lookup_insert_ne by (by intros ->).
      apply Hfresh. by right.
    + intros name' rows' Hin'. apply Hopen. by right.
    + exists gm. split; [done|]. intros name' t. rewrite Hspec. split.
      * intros [H|(rows' & m' & Hin' & Hm' & Ht)].
        -- destruct (decide (name = name')) as [->|Hne].
           ++ rewrite lookup_insert_eq in H. injection H as <-.
              right. exists rows, m. split; [by left|done].
           ++ rewrite lookup_insert_ne in H by done. by left.
        -- right. exists rows', m'. split; [by right|done].
      * intros [H|(rows' & m' & Hin' & Hm' & Ht)].
        -- left. rewrite lookup_insert_ne; [done|]. intros ->.
           rewrite (Hfresh name') in H by (by left). done.
        -- apply elem_of_cons in Hin' as [[= -> ->]|Hin'].
           ++ left. rewrite lookup_insert_eq. congruence.
           ++ right. by exists rows', m'.
Qed.

(** X18. Called as it should be (no [group_map], [trust_topics] true) on a
    directory whose files all open, [generate_group_map_from_topics] maps
    the name of every file, and nothing else, to the topic of its meeting,
    resets [group_dict] to the empty dict and leaves the groupings as they
    are. *)
Theorem X18_topics_map_names_to_topics
    (match_student : Z → string → result (option string))
    (self : MeetingSet) (dir : list (string * list (list string))) :
  group_map_truthy (group_map self) = false →
  NoDup dir.*1 →
  (∀ name rows, (name, rows) ∈ dir →
     is_Ok (open_report match_student name rows)) →
  ∃ self' gm,
    generate_group_map_from_topics match_student self true dir = Ok self'
    ∧ group_map self' = Some gm ∧ group_dict self' = Some ∅
    ∧ groups self' = groups self ∧ heap self' = heap self
    ∧ ∀ name t, gm !! name = Some t
        ↔ ∃ rows m, (name, rows) ∈ dir
            ∧ open_report match_student name rows = Ok m ∧ topic m = t.
Proof.
  intros Hgm Hnd Hopen. unfold generate_group_map_from_topics.
  rewrite Hgm. simpl.
  destruct (topics_loop_spec match_student dir ∅ Hnd) as (gm & -> & Hspec).
  { intros name _. apply lookup_empty. }
  { done. }
  eexists _, gm. split; [done|]. simpl. repeat (split; [done|]).
  intros name t. rewrite Hspec, lookup_empty.
  split; [by intros [H|H]|by right].
Qed.

Lemma X18_witness :
  ∃ self' gm,
    generate_group_map_from_topics echo_student (MeetingSet_init None) true
      [("6 health tue.csv", rows_morning)] = Ok self'
    ∧ group_map self' = Some gm ∧ group_dict self' = Some ∅
    ∧ groups self' = groups (MeetingSet_init None)
    ∧ heap self' = heap (MeetingSet_init None)
    ∧ ∀ name t, gm !! name = Some t
        ↔ ∃ rows m, (name, rows) ∈ [("6 health tue.csv", rows_morning)]
            ∧ open_report echo_student name rows = Ok m ∧ topic m = t.
Proof.
  apply (X18_topics_map_names_to_topics echo_student).
  - reflexivity.
  - apply NoDup_singleton.
  - intros name rows Hin. apply list_elem_of_singleton in Hin.
    injection Hin as -> ->. by exists meeting_morning.
Defined.

Lemma topics_loop_raises (match_student : Z → string → result (option string))
    (dir : list (string * list (list string))) (gm0 : gmap string string)
    (name : string) (rows : list (list string)) :
  (name, rows) ∈ dir → raises (open_report match_student name rows) →
  raises (topics_loop match_student dir gm0).
Proof.
  revert gm0. induction dir as [|[name' rows'] dir IH]; intros gm0 Hin Herr.
  - by apply elem_of_nil in Hin.
  - cbn [topics_loop]. apply bind_raises. intros m Hm.
    apply elem_of_cons in Hin as [[= -> ->]|Hin].
    + destruct Herr as [e He]. congruence.
    + by apply IH.
Qed.

(** X19. [generate_group_map_from_topics] opens every path of the
    directory, without the filter of [iter_csvs]: a single file whose name
    does not begin with a digit, such as a hidden file, makes it raise. *)
Theorem X19_topics_read_every_file
    (match_student : Z → string → result (option string))
    (self : MeetingSet) (trust_topics : bool)
    (dir : list (string * list (list string)))
    (c : ascii) (rest : string) (rows : list (list string)) :
  (String c rest, rows) ∈ dir → is_digit c = false →
  raises (generate_group_map_from_topics match_student self trust_topics dir).
Proof.
  intros Hin Hc. unfold generate_group_map_from_topics.
  destruct (negb _ && _); [|by eexists].
  apply bind_raises. intros gm Hgm.
  destruct (topics_loop_raises match_student dir ∅ _ rows Hin) as [e He].
  - exists NotImplementedError. by apply open_report_refuses_name.
  - congruence.
Qed.

Lemma X19_witness :
  raises (generate_group_map_from_topics echo_student (MeetingSet_init None)
            true
            [("6 health tue.csv", rows_morning);
             (".DS_Store", [["not"; "a"; "report"]])]).
Proof.
  apply (X19_topics_read_every_file echo_student _ _ _ "."%char "DS_Store"
           [["not"; "a"; "report"]]).
  - apply list_elem_of_further, list_elem_of_here.
  - reflexivity.
Defined.










(** * [IterCsv] *)

Lemma IterCsv_collect_from (fuel : nat) (self : IterCsv.t) :
  (1 ≤ fuel)%nat →
  (length (IterCsv.rows self) ≤ fuel + IterCsv.current_row self)%nat →
  IterCsv.collect fuel self
  = Some (Ok (take (length (IterCsv.rows self) - 2 - IterCsv.current_row self)
                (drop (S (IterCsv.current_row self)) (IterCsv.rows self)))).
Proof.
  revert self. induction fuel as [|fuel IH]; intros [k rs ctx] H1 Hfuel;
    [lia|]. simpl in *. unfold IterCsv.next. simpl.
  destruct (Z.of_nat (S k) <? Z.of_nat (length rs) - 1) eqn:Hlt.
  - apply Z.ltb_lt in Hlt.
    destruct (lookup_lt_is_Some_2 rs (S k)) as [row Hrow]; [lia|].
    rewrite Hrow, IH; simpl; [|lia..].
    rewrite (drop_S rs row (S k) Hrow).
    replace (length rs - 2 - k)%nat with (S (length rs - 2 - S k)) by lia.
    done.
  - apply Z.ltb_ge in Hlt.
    by replace (length rs - 2 - k)%nat with 0%nat by lia.
Qed.

(** X21. A [for] loop over an [IterCsv] is given the rows from the second
    to the last but one: the header is left out, and so is the last row of
    the file. *)
Theorem X21_IterCsv_leaves_out_last_row (acceptable_headers : list string)
    (rows : list (list string)) (strict : bool) (self : IterCsv.t)
    (fuel : nat) :
  IterCsv.init acceptable_headers rows strict = Ok self →
  (length rows ≤ fuel)%nat →
  IterCsv.collect fuel self
  = Some (Ok (take (length rows - 2) (drop 1 rows))).
Proof.
  intros Hinit Hfuel. unfold IterCsv.init, py_index in Hinit.
  destruct rows as [|header rows]; [done|]. simpl in Hinit.
  apply bind_Ok in Hinit as (ctx & _ & [= <-]).
  rewrite IterCsv_collect_from; simpl in *; [|lia..].
  by rewrite Nat.sub_0_r.
Qed.

Lemma X21_witness :
  IterCsv.collect 4
    {| IterCsv.current_row := 0;
       IterCsv.rows := [["first name"]; ["Ann"]; ["Bob"]; ["Cy"]];
       IterCsv.context := {[ "first name" := 0%nat ]} |}
  = Some (Ok (take (length [["first name"]; ["Ann"]; ["Bob"]; ["Cy"]] - 2)
                (drop 1 [["first name"]; ["Ann"]; ["Bob"]; ["Cy"]]))).
Proof.
  apply (X21_IterCsv_leaves_out_last_row ["first name"] _ false).
  - reflexivity.
  - simpl. lia.
Defined.

Lemma prefix_refl (s : string) : String.prefix s s = true.
Proof.
  induction s as [|c s IH]; [done|]. simpl.
  by destruct (ascii_dec c c).
Qed.

Lemma str_contains_refl (s : string) : str_contains s s = true.
Proof.
  destruct s as [|c s]; [done|].
  change (str_contains (String c s) (String c s))
    with (String.prefix (String c s) (String c s)
          || str_contains (String c s) s).
  by rewrite prefix_refl.
Qed.

Lemma IterCsv_assign_Ok (c : string) (i : nat) (ctx ctx' : gmap string nat) :
  IterCsv.assign c i ctx = Ok ctx' → ctx !! c = None ∧ ctx' = <[c := i]> ctx.
Proof.
  unfold IterCsv.assign. rewrite map_size_insert.
  destruct (ctx !! c) as [j|] eqn:Hc; simpl.
  - by rewrite Nat.eqb_refl.
  -
    destruct (size ctx =? S (size ctx))%nat eqn:E; [|by intros [= <-]].
    apply Nat.eqb_eq in E. lia.
Qed.

Lemma IterCsv_assign_Err (c : string) (i : nat) (ctx : gmap string nat)
    (e : exn) :
  IterCsv.assign c i ctx = Err e → e = Exception_.
Proof. unfold IterCsv.assign. case_match; [by intros [= <-]|done]. Qed.

Lemma IterCsv_elif_is_dead (strict : bool) (clean raw : string) :
  IterCsv.header_matches strict clean raw = false →
  strict && String.eqb clean raw = false.
Proof.
  unfold IterCsv.header_matches. intros H.
  apply orb_false_iff in H as [_ H].
  destruct strict; [|done]. simpl.
  destruct (String.eqb clean raw) eqn:E; [|done].
  apply String.eqb_eq in E as ->. by rewrite str_contains_refl in H.
Qed.

Lemma IterCsv_match_header_spec (strict : bool) (i : nat) (raw : string)
    (acc : list string) (ctx ctx' : gmap string nat) :
  IterCsv.match_header strict i raw acc ctx = Ok ctx' →
  ∀ c j, ctx' !! c = Some j
    ↔ ctx !! c = Some j
      ∨ (j = i ∧ c ∈ acc ∧ IterCsv.header_matches strict c raw = true).
Proof.
  revert ctx. induction acc as [|clean rest IH]; intros ctx H c j.
  - injection H as <-. split; [by left|]. intros [?|(_ & Hin & _)]; [done|].
    by apply elem_of_nil in Hin.
  - cbn [IterCsv.match_header] in H.
    destruct (IterCsv.header_matches strict clean raw) eqn:Hm.
    + apply bind_Ok in H as (ctx1 & Hassign & H).
      apply IterCsv_assign_Ok in Hassign as [Hfree ->].
      rewrite (IH _ H c j). split.
      * intros [Hc|(-> & Hin & Hmc)].
        -- destruct (decide (clean = c)) as [->|Hne].
           ++ rewrite lookup_insert_eq in Hc. injection Hc as <-.
              right. repeat split; [by left|done].
           ++ rewrite lookup_insert_ne in Hc by done. by left.
        -- right. repeat split; [by right|done].
      * intros [Hc|(-> & Hin & Hmc)].
        -- left. rewrite lookup_insert_ne; [done|]. intros ->. congruence.
        -- apply elem_of_cons in Hin as [->|Hin].
           ++ left. apply lookup_insert_eq.
           ++ right. by repeat split.
    + rewrite (IterCsv_elif_is_dead _ _ _ Hm) in H.
      rewrite (IH _ H c j). split.
      * intros [Hc|(-> & Hin & Hmc)]; [by left|].
        right. repeat split; [by right|done].
      * intros [Hc|(-> & Hin & Hmc)]; [by left|].
        apply elem_of_cons in Hin as [->|Hin]; [congruence|].
        right. by repeat split.
Qed.

Lemma IterCsv_header_loop_spec (strict : bool) (acc : list string)
    (i0 : nat) (header : list string) (ctx ctx' : gmap string nat) :
  IterCsv.header_loop strict acc i0 header ctx = Ok ctx' →
  ∀ c j, ctx' !! c = Some j
    ↔ ctx !! c = Some j
      ∨ (c ∈ acc ∧ ∃ k raw, header !! k = Some raw ∧ j = (i0 + k)%nat
           ∧ IterCsv.header_matches strict c (lower raw) = true).
Proof.
  revert i0 ctx. induction header as [|raw header IH]; intros i0 ctx H c j.
  - injection H as <-. split; [by left|].
    by intros [?|(_ & k & raw & Hk & _)].
  - cbn [IterCsv.header_loop] in H.
    apply bind_Ok in H as (ctx1 & Hhead & H).
    rewrite (IH _ _ H c j), (IterCsv_match_header_spec _ _ _ _ _ _ Hhead c j).
    split.
    + intros [[Hc|(-> & Hin & Hm)]|(Hin & k & raw' & Hk & -> & Hm)].
      * by left.
      * right. split; [done|]. exists 0%nat, raw.
        split; [done|]. split; [lia|done].
      * right. split; [done|]. exists (S k), raw'.
        split; [done|]. split; [lia|done].
    + intros [Hc|(Hin & [|k] & raw' & Hk & -> & Hm)].
      * by left; left.
      * injection Hk as <-. left; right.
        split; [lia|]. by split.
      * right. split; [done|]. exists k, raw'.
        split; [done|]. split; [lia|done].
Qed.

(** X22. When [IterCsv.__init__] returns, [context] maps an acceptable
    header to a column exactly when the lowered header of that column
    matches it; with [strict] the match is "the column header occurs in the
    acceptable header" (not equality), and without [strict] also "the
    acceptable header occurs in the column header". The second branch of
    the test, for equal headers under [strict], never decides anything. *)
Theorem X22_IterCsv_context (acceptable_headers : list string)
    (rows : list (list string)) (strict : bool) (self : IterCsv.t) :
  IterCsv.init acceptable_headers rows strict = Ok self →
  ∃ header, rows !! 0%nat = Some header
    ∧ IterCsv.rows self = rows ∧ IterCsv.current_row self = 0%nat
    ∧ ∀ clean j, IterCsv.context self !! clean = Some j
        ↔ clean ∈ acceptable_headers
          ∧ ∃ raw, header !! j = Some raw
              ∧ (if strict then str_contains (lower raw) clean
                 else str_contains clean (lower raw)
                      || str_contains (lower raw) clean) = true.
Proof.
  unfold IterCsv.init, py_index. intros H.
  destruct (rows !! 0%nat) as [header|] eqn:Hh; [|done]. simpl in H.
  apply bind_Ok in H as (ctx & Hloop & [= <-]). simpl.
  exists header. repeat (split; [done|]). intros clean j.
  rewrite (IterCsv_header_loop_spec _ _ _ _ _ _ Hloop clean j).
  rewrite lookup_empty. unfold IterCsv.header_matches. split.
  - intros [?|(Hin & k & raw & Hk & -> & Hm)]; [done|].
    split; [done|]. exists raw. split; [done|]. by destruct strict.
  - intros (Hin & raw & Hj & Hm). right. split; [done|].
    exists j, raw. split; [done|]. split; [done|]. by destruct strict.
Qed.

Lemma X22_witness :
  ∃ header, [["First Name"; "Grade"]; ["Ann"; "6"]] !! 0%nat = Some header
    ∧ IterCsv.rows {| IterCsv.current_row := 0;
                      IterCsv.rows := [["First Name"; "Grade"]; ["Ann"; "6"]];
                      IterCsv.context := {[ "first name" := 0%nat ]} |}
      = [["First Name"; "Grade"]; ["Ann"; "6"]]
    ∧ IterCsv.current_row
        {| IterCsv.current_row := 0;
           IterCsv.rows := [["First Name"; "Grade"]; ["Ann"; "6"]];
           IterCsv.context := {[ "first name" := 0%nat ]} |} = 0%nat
    ∧ ∀ clean j,
        IterCsv.context
          {| IterCsv.current_row := 0;
             IterCsv.rows := [["First Name"; "Grade"]; ["Ann"; "6"]];
             IterCsv.context := {[ "first name" := 0%nat ]} |} !! clean
        = Some j
        ↔ clean ∈ ["first name"]
          ∧ ∃ raw, header !! j = Some raw
              ∧ (if true then str_contains (lower raw) clean
                 else str_contains clean (lower raw)
                      || str_contains (lower raw) clean) = true.
Proof.
  apply (X22_IterCsv_context ["first name"] _ true). reflexivity.
Defined.

Lemma IterCsv_match_header_Err (strict : bool) (i : nat) (raw : string)
    (acc : list string) (ctx : gmap string nat) (e : exn) :
  IterCsv.match_header strict i raw acc ctx = Err e → e = Exception_.
Proof.
  revert ctx. induction acc as [|clean rest IH]; intros ctx H; [done|].
  cbn [IterCsv.match_header] in H.
  destruct (IterCsv.header_matches strict clean raw) eqn:Hm.
  - destruct (IterCsv.assign clean i ctx) as [ctx1|e1] eqn:Ha; simpl in H.
    + by apply (IH ctx1).
    + injection H as <-. by apply IterCsv_assign_Err in Ha.
  - rewrite (IterCsv_elif_is_dead _ _ _ Hm) in H. by apply (IH ctx).
Qed.

Lemma IterCsv_header_loop_Err (strict : bool) (acc : list string)
    (i0 : nat) (header : list string) (ctx : gmap string nat) (e : exn) :
  IterCsv.header_loop strict acc i0 header ctx = Err e → e = Exception_.
Proof.
  revert i0 ctx. induction header as [|raw header IH]; intros i0 ctx H; [done|].
  cbn [IterCsv.header_loop] in H.
  destruct (IterCsv.match_header strict i0 (lower raw) acc ctx)
    as [ctx1|e1] eqn:Hm; simpl in H.
  - by apply (IH (S i0) ctx1).
  - injection H as <-. by apply IterCsv_match_header_Err in Hm.
Qed.

(** X23. When two different columns of the header row match the same
    acceptable header, [IterCsv.__init__] raises [Exception]. *)
Theorem X23_IterCsv_two_matching_columns_raise
    (acceptable_headers : list string) (rows : list (list string))
    (strict : bool) (header : list string) (clean raw1 raw2 : string)
    (j1 j2 : nat) :
  rows !! 0%nat = Some header →
  clean ∈ acceptable_headers →
  j1 ≠ j2 →
  header !! j1 = Some raw1 →
  header !! j2 = Some raw2 →
  IterCsv.header_matches strict clean (lower raw1) = true →
  IterCsv.header_matches strict clean (lower raw2) = true →
  IterCsv.init acceptable_headers rows strict = Err Exception_.
Proof.
  intros Hh Hin Hne H1 H2 Hm1 Hm2. unfold IterCsv.init, py_index.
  rewrite Hh. simpl.
  destruct (IterCsv.header_loop strict acceptable_headers 0 header ∅)
    as [ctx|e] eqn:Hloop; simpl.
  - pose proof (IterCsv_header_loop_spec _ _ _ _ _ _ Hloop clean) as Hspec.
    assert (ctx !! clean = Some j1) as E1.
    { apply Hspec. right. split; [done|]. by exists j1, raw1. }
    assert (ctx !! clean = Some j2) as E2.
    { apply Hspec. right. split; [done|]. by exists j2, raw2. }
    congruence.
  - by rewrite (IterCsv_header_loop_Err _ _ _ _ _ _ Hloop).
Qed.

Lemma X23_witness :
  IterCsv.init ["name"] [["First Name"; "Last Name"]; ["Ann"; "Lee"]] false
  = Err Exception_.
Proof.
  apply (X23_IterCsv_two_matching_columns_raise ["name"] _ false
           ["First Name"; "Last Name"] "name" "First Name" "Last Name" 0 1).
  - reflexivity.
  - apply list_elem_of_here.
  - lia.
  - reflexivity.
  - reflexivity.
  - vm_compute. reflexivity.
  - vm_compute. reflexivity.
Defined.

(** * [csv_parsers] *)

Lemma outcome_bind_Return {A B} (r : csv_parsers.outcome A)
    (f : A → csv_parsers.outcome B) (b : B) :
  r ≫= f = csv_parsers.Return b →
  ∃ a, r = csv_parsers.Return a ∧ f a = csv_parsers.Return b.
Proof. destruct r as [a|e]; [by exists a|done]. Qed.

Lemma csv_index_Return {A} (l : list A) (i : nat) (x : A) :
  csv_parsers.index l i = csv_parsers.Return x → l !! i = Some x.
Proof. unfold csv_parsers.index. destruct (l !! i); [by intros [= ->]|done]. Qed.

(** One local of the header scan, seen through a projection [proj] of the
    pair of locals that [key] sets: either no cell of the file is [key] and
    the local is as before, or the local is the column of such a cell. *)
Section Scan.
Variable key : string.
Variable proj : option nat * option nat → option nat.
Hypothesis proj_scan_item : ∀ st i item,
  proj (csv_parsers.scan_item st i item)
  = if String.eqb (lower item) key then Some i else proj st.

Lemma scan_row_proj (st : option nat * option nat) (i : nat)
    (row : list string) :
  (Forall (λ item, lower item ≠ key) row
   ∧ proj (csv_parsers.scan_row st i row) = proj st)
  ∨ (∃ j item, row !! j = Some item ∧ lower item = key
       ∧ proj (csv_parsers.scan_row st i row) = Some (i + j)%nat).
Proof using proj_scan_item.
  revert st i. induction row as [|item row IH]; intros st i.
  - left. by split.
  - cbn [csv_parsers.scan_row].
    destruct (IH (csv_parsers.scan_item st i item) (S i))
      as [[Hno Heq]|(j & item' & Hj & Hkey & Heq)].
    + rewrite proj_scan_item in Heq.
      destruct (String.eqb (lower item) key) eqn:E.
      * right. exists 0%nat, item. apply String.eqb_eq in E.
        split; [done|]. split; [done|]. by rewrite Nat.add_0_r.
      * left. split; [|done]. constructor; [|done].
        by apply String.eqb_neq.
    + right. exists (S j), item'. split; [done|]. split; [done|].
      rewrite Heq. f_equal. lia.
Qed.

Lemma scan_rows_proj (st : option nat * option nat)
    (rows : list (list string)) :
  ((∀ row item, row ∈ rows → item ∈ row → lower item ≠ key)
   ∧ proj (csv_parsers.scan_rows st rows) = proj st)
  ∨ (∃ row j item, row ∈ rows ∧ row !! j = Some item ∧ lower item = key
       ∧ proj (csv_parsers.scan_rows st rows) = Some j).
Proof using proj_scan_item.
  revert st. induction rows as [|row rows IH]; intros st.
  - left. split; [|done]. intros row item Hin. by apply elem_of_nil in Hin.
  - change (csv_parsers.scan_rows st (row :: rows))
      with (csv_parsers.scan_rows (csv_parsers.scan_row st 0 row) rows).
    destruct (IH (csv_parsers.scan_row st 0 row))
      as [[Hno Heq]|(row' & j & item & Hin & Hj & Hkey & Heq)].
    + destruct (scan_row_proj st 0 row)
        as [[Hno' Heq']|(j & item & Hj & Hkey & Heq')].
      * left. split; [|by rewrite Heq, Heq']. intros row' item Hin Hitem.
        apply elem_of_cons in Hin as [->|Hin]; [|by eapply Hno].
        rewrite Forall_forall in Hno'. by apply Hno'.
      * right. exists row, j, item. split; [by left|].
        split; [done|]. split; [done|]. by rewrite Heq, Heq', Nat.add_0_l.
    + right. exists row', j, item. split; [by right|]. done.
Qed.

End Scan.

Lemma scan_rows_id (st : option nat * option nat) (rows : list (list string)) :
  ((∀ row item, row ∈ rows → item ∈ row → lower item ≠ "id")
   ∧ (csv_parsers.scan_rows st rows).1 = st.1)
  ∨ (∃ row j item, row ∈ rows ∧ row !! j = Some item ∧ lower item = "id"
       ∧ (csv_parsers.scan_rows st rows).1 = Some j).
Proof. by apply (scan_rows_proj "id" fst). Qed.

Lemma scan_rows_name (st : option nat * option nat)
    (rows : list (list string)) :
  ((∀ row item, row ∈ rows → item ∈ row → lower item ≠ "name")
   ∧ (csv_parsers.scan_rows st rows).2 = st.2)
  ∨ (∃ row j item, row ∈ rows ∧ row !! j = Some item ∧ lower item = "name"
       ∧ (csv_parsers.scan_rows st rows).2 = Some j).
Proof. by apply (scan_rows_proj "name" snd). Qed.

Lemma str_index_1 (stem : string) :
  (2 ≤ String.length stem)%nat →
  ∃ c, csv_parsers.str_index stem 1 = csv_parsers.Return c.
Proof.
  destruct stem as [|c0 [|c1 stem]]; simpl; [lia|lia|]. intros _. by exists c1.
Qed.

(** X24. A file that has the header [id] (in any case) only in its first
    column, the column [parse_homeroom] reads the student ids from, is
    refused with [Exception]: the column index 0 counts as not found. *)
Theorem X24_parse_homeroom_refuses_id_in_first_column {Student : Type}
    (Student_init : csv_parsers.context → csv_parsers.outcome Student)
    (stem : string) (rows : list (list string)) :
  (2 ≤ String.length stem)%nat →
  (∃ row item, row ∈ rows ∧ item ∈ row ∧ lower item = "id") →
  (∀ row j item, row ∈ rows → row !! j = Some item → lower item = "id" →
     j = 0%nat) →
  csv_parsers.parse_homeroom Student_init stem rows
  = csv_parsers.Raise (csv_parsers.Builtin Exception_).
Proof.
  intros Hstem (row & item & Hin & Hitem & Hkey) Hcol.
  unfold csv_parsers.parse_homeroom.
  destruct (str_index_1 stem Hstem) as [c ->]. simpl.
  destruct (scan_rows_id (None, None) rows)
    as [[Hno _]|(row' & j & item' & Hin' & Hj & Hkey' & Heq)].
  - by destruct (Hno row item Hin Hitem).
  - rewrite (Hcol row' j item' Hin' Hj Hkey') in Heq.
    unfold csv_parsers.check_indices. by rewrite Heq.
Qed.

Lemma X24_witness :
  csv_parsers.parse_homeroom (λ c : csv_parsers.context, csv_parsers.Return c)
    "06Smith" [["ID"; "Name"]; ["1234"; "Lee, Ann"]]
  = csv_parsers.Raise (csv_parsers.Builtin Exception_).
Proof.
  apply X24_parse_homeroom_refuses_id_in_first_column.
  - simpl. lia.
  - exists ["ID"; "Name"], "ID". split; [apply list_elem_of_here|].
    split; [apply list_elem_of_here|reflexivity].
  - intros row j item Hin Hj Hkey.
    apply elem_of_cons in Hin as [->|Hin].
    + destruct j as [|[|j]]; [reflexivity| |discriminate Hj].
      injection Hj as <-. discriminate Hkey.
    + apply elem_of_cons in Hin as [->|Hin].
      * destruct j as [|[|j]]; [reflexivity| |discriminate Hj].
        injection Hj as <-. discriminate Hkey.
      * by apply elem_of_nil in Hin.
Defined.

(** X25. A file with no cell [id] at all makes [parse_homeroom] raise
    [UnboundLocalError] for [id_index], the empty file included. *)
Theorem X25_parse_homeroom_without_id_header {Student : Type}
    (Student_init : csv_parsers.context → csv_parsers.outcome Student)
    (stem : string) (rows : list (list string)) :
  (2 ≤ String.length stem)%nat →
  (∀ row item, row ∈ rows → item ∈ row → lower item ≠ "id") →
  csv_parsers.parse_homeroom Student_init stem rows
  = csv_parsers.Raise (csv_parsers.UnboundLocalError "id_index").
Proof.
  intros Hstem Hno. unfold csv_parsers.parse_homeroom.
  destruct (str_index_1 stem Hstem) as [c ->]. simpl.
  destruct (scan_rows_id (None, None) rows)
    as [[_ Heq]|(row & j & item & Hin & Hj & Hkey & _)].
  - unfold csv_parsers.check_indices. by rewrite Heq.
  - destruct (Hno row item Hin); [|done]. by eapply list_elem_of_lookup_2.
Qed.

Lemma X25_witness :
  csv_parsers.parse_homeroom (λ c : csv_parsers.context, csv_parsers.Return c)
    "06Smith" []
  = csv_parsers.Raise (csv_parsers.UnboundLocalError "id_index").
Proof.
  apply X25_parse_homeroom_without_id_header.
  - simpl. lia.
  - intros row item Hin. by apply elem_of_nil in Hin.
Defined.

Lemma students_loop_Return {Student : Type}
    (body : list string → csv_parsers.outcome Student)
    (rows : list (list string)) (students : list Student) :
  csv_parsers.students_loop body rows = csv_parsers.Return students →
  Forall2 (λ row student, body row = csv_parsers.Return student) rows students.
Proof.
  revert students. induction rows as [|row rows IH]; intros students H.
  - injection H as <-. constructor.
  - cbn [csv_parsers.students_loop] in H.
    apply outcome_bind_Return in H as (student & Hbody & H).
    apply outcome_bind_Return in H as (students' & Hloop & [= <-]).
    constructor; [done|]. by apply IH.
Qed.

Lemma str_find_Return (c : ascii) (s : string) (k : nat) :
  csv_parsers.str_find c s = csv_parsers.Return k →
  s = csv_parsers.str_take k s +:+ String c (csv_parsers.str_drop (S k) s)
  ∧ str_contains (String c EmptyString) (csv_parsers.str_take k s) = false.
Proof.
  revert k. induction s as [|c' s IH]; intros k H; [done|].
  cbn [csv_parsers.str_find] in H.
  destruct (Ascii.eqb c' c) eqn:E.
  - injection H as <-. apply Ascii.eqb_eq in E as ->. done.
  - apply outcome_bind_Return in H as (i & Hi & [= <-]).
    destruct (IH i Hi) as [Hs Hno]. split.
    + change (String c' s
              = String c' (csv_parsers.str_take i s
                           +:+ String c (csv_parsers.str_drop (S i) s))).
      by rewrite <- Hs.
    + change (String.prefix (String c EmptyString)
                (String c' (csv_parsers.str_take i s))
              || str_contains (String c EmptyString)
                   (csv_parsers.str_take i s) = false).
      rewrite Hno, orb_false_r. simpl.
      destruct (ascii_dec c c') as [->|]; [|done].
      by rewrite Ascii.eqb_refl in E.
Qed.

Lemma str_drop_S (n : nat) (s : string) :
  csv_parsers.str_drop (S n) s
  = csv_parsers.str_drop 1 (csv_parsers.str_drop n s).
Proof.
  revert s. induction n as [|n IH]; intros s; [done|].
  destruct s as [|c s]; [done|].
  change (csv_parsers.str_drop (S (S n)) (String c s))
    with (csv_parsers.str_drop (S n) s).
  change (csv_parsers.str_drop (S n) (String c s))
    with (csv_parsers.str_drop n s).
  apply IH.
Qed.

(** X26. When [parse_homeroom] returns, the teacher and the grade level
    come from the file name, the headers [id] and [name] both occur past
    the first column, and there is one student per row after the first, in
    order: the row's second cell is [last_name], a comma, one character
    that is dropped whatever it is, and [first_name], where [last_name] has
    no comma; the student id is the row's first cell. *)
Theorem X26_parse_homeroom_result {Student : Type}
    (Student_init : csv_parsers.context → csv_parsers.outcome Student)
    (stem : string) (rows : list (list string)) (teacher : string)
    (grade_level : ascii) (students : list Student) :
  csv_parsers.parse_homeroom Student_init stem rows
  = csv_parsers.Return (teacher, grade_level, students) →
  teacher = csv_parsers.str_drop 2 stem
  ∧ csv_parsers.str_index stem 1 = csv_parsers.Return grade_level
  ∧ (∃ row j item, row ∈ rows ∧ row !! S j = Some item ∧ lower item = "id")
  ∧ (∃ row j item, row ∈ rows ∧ row !! S j = Some item ∧ lower item = "name")
  ∧ Forall2 (λ row student, ∃ id last_name rest,
       row !! 0%nat = Some id
       ∧ row !! 1%nat = Some (last_name +:+ String "," rest)
       ∧ str_contains "," last_name = false
       ∧ Student_init
           {| csv_parsers.first_name := csv_parsers.str_drop 1 rest;
              csv_parsers.last_name := last_name;
              csv_parsers.student_id := Some id;
              csv_parsers.email := None;
              csv_parsers.homeroom := Some teacher;
              csv_parsers.groups := None;
              csv_parsers.grade_level := grade_level |}
         = csv_parsers.Return student)
     (tail rows) students.
Proof.
  unfold csv_parsers.parse_homeroom. intros H.
  apply outcome_bind_Return in H as (g & Hg & H).
  apply outcome_bind_Return in H as ([] & Hcheck & H).
  destruct rows as [|row0 rows]; [done|].
  apply outcome_bind_Return in H as (sts & Hloop & [= <- <- <-]).
  split; [done|]. split; [done|].
  unfold csv_parsers.check_indices in Hcheck.
  destruct (scan_rows_id (None, None) (row0 :: rows))
    as [[_ Heq]|(row & j & item & Hin & Hj & Hkey & Heq)];
    rewrite Heq in Hcheck; [done|].
  destruct j as [|j]; [done|].
  split; [by exists row, j, item|].
  destruct (scan_rows_name (None, None) (row0 :: rows))
    as [[_ Heq']|(row' & j' & item' & Hin' & Hj' & Hkey' & Heq')];
    rewrite Heq' in Hcheck; [done|].
  destruct j' as [|j']; [done|].
  split; [by exists row', j', item'|].
  apply students_loop_Return in Hloop. cbn [tail].
  eapply Forall2_impl; [exact Hloop|]. clear. intros row student H.
  unfold csv_parsers.homeroom_student in H.
  apply outcome_bind_Return in H as (inverted_name & Hname & H).
  apply outcome_bind_Return in H as (flip_index & Hflip & H).
  apply outcome_bind_Return in H as (id & Hid & H).
  apply csv_index_Return in Hname, Hid.
  apply str_find_Return in Hflip as [Hs Hno].
  exists id, (csv_parsers.str_take flip_index inverted_name),
    (csv_parsers.str_drop (S flip_index) inverted_name).
  split; [done|]. split; [by rewrite <- Hs|]. split; [done|].
  rewrite <- str_drop_S.
  by replace (S (S flip_index)) with (flip_index + 2)%nat by lia.
Qed.

Lemma X26_witness :
  "Smith" = csv_parsers.str_drop 2 "06Smith"
  ∧ csv_parsers.str_index "06Smith" 1 = csv_parsers.Return "6"%char
  ∧ (∃ row j item, row ∈ [["Grade"; "ID"; "Name"]; ["1234"; "Lee, Ann"]]
       ∧ row !! S j = Some item ∧ lower item = "id")
  ∧ (∃ row j item, row ∈ [["Grade"; "ID"; "Name"]; ["1234"; "Lee, Ann"]]
       ∧ row !! S j = Some item ∧ lower item = "name")
  ∧ Forall2 (λ row student, ∃ id last_name rest,
       row !! 0%nat = Some id
       ∧ row !! 1%nat = Some (last_name +:+ String "," rest)
       ∧ str_contains "," last_name = false
       ∧ csv_parsers.Return
           {| csv_parsers.first_name := csv_parsers.str_drop 1 rest;
              csv_parsers.last_name := last_name;
              csv_parsers.student_id := Some id;
              csv_parsers.email := None;
              csv_parsers.homeroom := Some "Smith";
              csv_parsers.groups := None;
              csv_parsers.grade_level := "6"%char |}
         = csv_parsers.Return student)
     (tail [["Grade"; "ID"; "Name"]; ["1234"; "Lee, Ann"]])
     [{| csv_parsers.first_name := "Ann";
         csv_parsers.last_name := "Lee";
         csv_parsers.student_id := Some "1234";
         csv_parsers.email := None;
         csv_parsers.homeroom := Some "Smith";
         csv_parsers.groups := None;
         csv_parsers.grade_level := "6"%char |}].
Proof.
  apply (X26_parse_homeroom_result
           (λ c : csv_parsers.context, csv_parsers.Return c)).
  reflexivity.
Defined.

Lemma prefix_other_char (c c' : ascii) (w : string) :
  c ≠ c' → String.prefix (String c EmptyString) (String c' w) = false.
Proof. intros Hne. cbn [String.prefix]. by destruct (ascii_dec c c'). Qed.

Lemma str_split_head (s : string) :
  ∃ ws, csv_parsers.str_split " " s = before_space s :: ws.
Proof.
  induction s as [|c s [ws IH]]; [by exists []|].
  cbn [csv_parsers.str_split before_space].
  destruct (Ascii.eqb c " "); [by eexists|].
  rewrite IH. by eexists.
Qed.

Lemma str_split_second (s w0 w1 : string) (ws : list string) :
  csv_parsers.str_split " " s = w0 :: w1 :: ws →
  ∃ rest, s = w0 +:+ String " " rest
    ∧ str_contains " " w0 = false ∧ w1 = before_space rest.
Proof.
  revert w0. induction s as [|c s IH]; intros w0 H; [done|].
  cbn [csv_parsers.str_split] in H.
  destruct (Ascii.eqb c " ") eqn:E.
  - apply Ascii.eqb_eq in E as ->. injection H as <- H.
    exists s. split; [done|]. split; [done|].
    destruct (str_split_head s) as [ws' Hs]. congruence.
  - destruct (csv_parsers.str_split " " s) as [|w ws'] eqn:Hs; [done|].
    injection H as <- ->.
    destruct (IH w eq_refl) as (rest & -> & Hno & ->).
    exists rest. split; [done|]. split; [|done].
    change (String.prefix " " (String c w) || str_contains " " w = false).
    rewrite Hno, orb_false_r. apply prefix_other_char.
    intros <-. by rewrite Ascii.eqb_refl in E.
Qed.

(** X27. When [parse_group] returns, there is one student per row of the
    file, the first row included, in order: the row's first cell has a
    space, [first_name] is the text before the first space and [last_name]
    the text between the first space and the next one, so that what follows
    a second space is lost. *)
Theorem X27_parse_group_result {Student : Type}
    (Student_init : csv_parsers.context → csv_parsers.outcome Student)
    (stem : string) (rows : list (list string)) (group_name : string)
    (grade_level : ascii) (students : list Student) :
  csv_parsers.parse_group Student_init stem rows
  = csv_parsers.Return (group_name, grade_level, students) →
  group_name = csv_parsers.str_drop 2 stem
  ∧ csv_parsers.str_index stem 1 = csv_parsers.Return grade_level
  ∧ Forall2 (λ row student, ∃ first_name rest,
       row !! 0%nat = Some (first_name +:+ String " " rest)
       ∧ str_contains " " first_name = false
       ∧ Student_init
           {| csv_parsers.first_name := first_name;
              csv_parsers.last_name := before_space rest;
              csv_parsers.student_id := None;
              csv_parsers.email := None;
              csv_parsers.homeroom := None;
              csv_parsers.groups := Some [group_name];
              csv_parsers.grade_level := grade_level |}
         = csv_parsers.Return student)
     rows students.
Proof.
  unfold csv_parsers.parse_group. intros H.
  apply outcome_bind_Return in H as (g & Hg & H).
  apply outcome_bind_Return in H as (sts & Hloop & [= <- <- <-]).
  split; [done|]. split; [done|].
  apply students_loop_Return in Hloop.
  eapply Forall2_impl; [exact Hloop|]. clear. intros row student H.
  unfold csv_parsers.group_student in H.
  apply outcome_bind_Return in H as (cell & Hcell & H).
  apply outcome_bind_Return in H as (w0 & Hw0 & H).
  apply outcome_bind_Return in H as (w1 & Hw1 & H).
  apply csv_index_Return in Hcell, Hw0, Hw1.
  destruct (csv_parsers.str_split " " cell) as [|w0' [|w1' ws]] eqn:Hs;
    [done|done|].
  injection Hw0 as ->. injection Hw1 as ->.
  apply str_split_second in Hs as (rest & -> & Hno & ->).
  by exists w0, rest.
Qed.

Lemma X27_witness :
  "Band" = csv_parsers.str_drop 2 "06Band"
  ∧ csv_parsers.str_index "06Band" 1 = csv_parsers.Return "6"%char
  ∧ Forall2 (λ row student, ∃ first_name rest,
       row !! 0%nat = Some (first_name +:+ String " " rest)
       ∧ str_contains " " first_name = false
       ∧ csv_parsers.Return
           {| csv_parsers.first_name := first_name;
              csv_parsers.last_name := before_space rest;
              csv_parsers.student_id := None;
              csv_parsers.email := None;
              csv_parsers.homeroom := None;
              csv_parsers.groups := Some ["Band"];
              csv_parsers.grade_level := "6"%char |}
         = csv_parsers.Return student)
     [["Mary Ann Lee"]]
     [{| csv_parsers.first_name := "Mary";
         csv_parsers.last_name := "Ann";
         csv_parsers.student_id := None;
         csv_parsers.email := None;
         csv_parsers.homeroom := None;
         csv_parsers.groups := Some ["Band"];
         csv_parsers.grade_level := "6"%char |}].
Proof.
  apply (X27_parse_group_result
           (λ c : csv_parsers.context, csv_parsers.Return c)).
  reflexivity.
Defined.
